(** * TechHive Automation: the product automation routines and the activity log

    A shallow embedding of the automation server, version 2.0.0 (the
    activity log, [GET /api/products], [POST /api/bulk-edit] and the three
    catalogue scans), together with the properties its specification states.

    - JavaScript strings are sequences of UTF-16 code units: [list N].
    - The remote catalogue is an oracle that answers each request from the
      history of the requests issued so far; every request is recorded in the
      state, so that "a write-back is issued" is a fact about that record.
    - Exceptions and the shared log are threaded through a small state and
      exception monad; [try ... catch] is [try_catch].
    - Each routine is modelled as one uninterrupted run: the interleaving of
      two routines at their [await] points is outside the model. *)

From Stdlib Require Import List NArith ZArith Bool Lia String Ascii.
From Stdlib Require Decimal.
Import ListNotations.

(* ================================================================= *)
(** * JavaScript strings *)

Module JS.

Local Open Scope N_scope.

(** A string is its sequence of UTF-16 code units. *)
Definition jsstr := list N.

(** A literal of the source, written in ASCII. *)
Definition lit (s : string) : jsstr := map N_of_ascii (list_ascii_of_string s).

Definition SPACE : N := 32.
Definition COMMA : N := 44.

Fixpoint eqb (a b : jsstr) : bool :=
  match a, b with
  | [], [] => true
  | x :: a', y :: b' => (x =? y) && eqb a' b'
  | _, _ => false
  end.

(** [s.length] *)
Definition length (s : jsstr) : nat := List.length s.

(** White space and line terminators of ECMAScript: what [\s] matches and
    what [trim] strips (TAB, LF, VT, FF, CR, SP, NBSP, the other space
    separators, LS, PS and the byte order mark). *)
Definition isWhiteSpace (c : N) : bool :=
  (c =? 9) || (c =? 10) || (c =? 11) || (c =? 12) || (c =? 13) || (c =? 32)
  || (c =? 160) || (c =? 0x1680) || ((0x2000 <=? c) && (c <=? 0x200A))
  || (c =? 0x2028) || (c =? 0x2029) || (c =? 0x202F) || (c =? 0x205F)
  || (c =? 0x3000) || (c =? 0xFEFF).

(** [s.replace(/\s+/g, ' ')]: the scan replaces every maximal run of white
    space by one space; [in_run] says that the unit before was white space
    (the run's space is already written). *)
Fixpoint replace_ws_from (in_run : bool) (s : jsstr) : jsstr :=
  match s with
  | [] => []
  | c :: s' =>
      if isWhiteSpace c
      then if in_run then replace_ws_from true s'
           else SPACE :: replace_ws_from true s'
      else c :: replace_ws_from false s'
  end.

Definition replace_ws (s : jsstr) : jsstr := replace_ws_from false s.

Fixpoint trimStart (s : jsstr) : jsstr :=
  match s with
  | [] => []
  | c :: s' => if isWhiteSpace c then trimStart s' else s
  end.

Fixpoint trimEnd (s : jsstr) : jsstr :=
  match s with
  | [] => []
  | c :: s' =>
      match trimEnd s' with
      | [] => if isWhiteSpace c then [] else [c]
      | r => c :: r
      end
  end.

(** [s.trim()] *)
Definition trim (s : jsstr) : jsstr := trimEnd (trimStart s).

(** [s.split(sep)] for a separator of one code unit: the pieces between the
    occurrences of [sep]; never the empty list ([''.split(',')] is ['']). *)
Fixpoint split (sep : N) (s : jsstr) : list jsstr :=
  match s with
  | [] => [[]]
  | c :: s' =>
      if c =? sep then [] :: split sep s'
      else match split sep s' with
           | [] => [[c]]
           | piece :: pieces => (c :: piece) :: pieces
           end
  end.

(** [pieces.join(sep)] *)
Fixpoint join (sep : jsstr) (pieces : list jsstr) : jsstr :=
  match pieces with
  | [] => []
  | [piece] => piece
  | piece :: rest => piece ++ sep ++ join sep rest
  end.

(** [s.startsWith(prefix)] *)
Fixpoint startsWith (prefix s : jsstr) : bool :=
  match prefix, s with
  | [], _ => true
  | _ :: _, [] => false
  | p :: prefix', c :: s' => (p =? c) && startsWith prefix' s'
  end.

(** [s.charAt(0)]: the first code unit as a string, [''] on the empty string. *)
Definition charAt0 (s : jsstr) : jsstr :=
  match s with
  | [] => []
  | c :: _ => [c]
  end.

(** [s.slice(1)] *)
Definition slice1 (s : jsstr) : jsstr := tl s.

(** Case mapping of one code unit. The tables are those of Unicode for the
    code units up to U+00FF (Basic Latin and Latin-1 Supplement): there the
    mapping does not depend on the neighbours, 'ß' (U+00DF) upper-cases to the
    two units "SS", and 'µ' and 'ÿ' upper-case out of Latin-1. Code units above
    U+00FF are left as they are: the runtime's tables for them are not part of
    this model, and what is proved of case-mapped text is proved of Latin-1
    text. *)
Definition upper_unit (c : N) : jsstr :=
  if (0x61 <=? c) && (c <=? 0x7A) then [c - 0x20]
  else if c =? 0xB5 then [0x39C]
  else if c =? 0xDF then [0x53; 0x53]
  else if (0xE0 <=? c) && (c <=? 0xFE) && negb (c =? 0xF7) then [c - 0x20]
  else if c =? 0xFF then [0x178]
  else [c].

Definition lower_unit (c : N) : jsstr :=
  if (0x41 <=? c) && (c <=? 0x5A) then [c + 0x20]
  else if (0xC0 <=? c) && (c <=? 0xDE) && negb (c =? 0xD7) then [c + 0x20]
  else [c].

(** [s.toUpperCase()] and [s.toLowerCase()] *)
Definition toUpperCase (s : jsstr) : jsstr := flat_map upper_unit s.
Definition toLowerCase (s : jsstr) : jsstr := flat_map lower_unit s.

(** A number in a template literal: its decimal digits. *)
Fixpoint digits (d : Decimal.uint) : jsstr :=
  match d with
  | Decimal.Nil => []
  | Decimal.D0 d' => 48 :: digits d'
  | Decimal.D1 d' => 49 :: digits d'
  | Decimal.D2 d' => 50 :: digits d'
  | Decimal.D3 d' => 51 :: digits d'
  | Decimal.D4 d' => 52 :: digits d'
  | Decimal.D5 d' => 53 :: digits d'
  | Decimal.D6 d' => 54 :: digits d'
  | Decimal.D7 d' => 55 :: digits d'
  | Decimal.D8 d' => 56 :: digits d'
  | Decimal.D9 d' => 57 :: digits d'
  end.

Definition show (n : N) : jsstr := digits (N.to_uint n).

End JS.

Import JS.

(* ================================================================= *)
(** * Data model *)

(** A variant of a product; [inventory_quantity] may be missing. *)
Record Variant := mkVariant { inventory_quantity : option Z }.

(** A product as the remote catalogue returns it: the fields the routines
    read. [body_html] is [null] for a product with no description. *)
Record Product := mkProduct {
  id : N;
  title : jsstr;
  tags : jsstr;
  body_html : option jsstr;
  vendor : jsstr;
  product_type : jsstr;
  variants : list Variant
}.

Inductive Status := success | error.

Definition status_text (s : Status) : jsstr :=
  match s with
  | success => lit "success"
  | error => lit "error"
  end.

Record ActivityLogEntry := mkEntry {
  timestamp : jsstr;
  action : jsstr;
  details : jsstr;
  status : Status
}.

(** The [product] object of a [PUT /products/{id}.json] request. The shared
    payload of a bulk edit is whatever JSON the caller sent (absent when the
    request body has no [updates]). *)
Inductive ProductFields :=
| SetTitle (title : jsstr)
| SetTags (tags : jsstr)
| SetBodyHtml (body_html : jsstr)
| Updates (updates : option jsstr).

(** The calls on [shopifyAPI]. *)
Inductive Request :=
| GetProducts                                 (* get('/products.json?limit=250') *)
| PutProduct (id : N) (product : ProductFields). (* put(`/products/${id}.json`, { product }) *)

(** One entry of the [results] of a bulk edit. *)
Record BulkEditResult := mkResult {
  result_id : N;
  result_status : Status;
  result_error : option jsstr
}.

Inductive ResponseBody :=
| ProductsBody (message : option jsstr) (products : list Product)
| ErrorBody (error_message : jsstr)
| BulkEditBody (results : list BulkEditResult) (total successful : nat).

Record HttpResponse := mkResponse { statusCode : N; body : ResponseBody }.

(* ================================================================= *)
(** * State, exceptions and the environment *)

(** What a computation ends with: a value, or a thrown error and its
    [message]. *)
Inductive Outcome (A : Type) :=
| Returned (a : A)
| Thrown (message : jsstr).

Arguments Returned {A} a.
Arguments Thrown {A} message.

(** The process state: the log (newest first), the diagnostic output, the
    requests sent to the remote catalogue (oldest first) and the number of
    times the clock was read. *)
Record State := mkState {
  automationLogs : list ActivityLogEntry;
  console : list jsstr;
  requests : list Request;
  clock_reads : nat
}.

Definition initial : State := mkState [] [] [] 0.

(** The configuration and the outside world. A remote call is answered from
    the requests sent before it, so an answer may differ from call to call. *)
Record Env := mkEnv {
  SHOPIFY_STORE : option jsstr;
  SHOPIFY_ACCESS_TOKEN : option jsstr;
  remote_get : list Request -> Outcome (list Product);
  remote_put : list Request -> N -> ProductFields -> Outcome unit;
  now : nat -> jsstr
}.

(** Truthiness of a string: every string but [''] is truthy. *)
Definition truthy (s : jsstr) : bool :=
  match s with
  | [] => false
  | _ :: _ => true
  end.

(** [!v] for a value that is a string, or [null] or [undefined]. *)
Definition falsy (v : option jsstr) : bool :=
  match v with
  | None => true
  | Some s => negb (truthy s)
  end.

Definition M (A : Type) : Type := State -> Outcome A * State.

Definition ret {A} (a : A) : M A := fun st => (Returned a, st).

Definition bind {A B} (m : M A) (k : A -> M B) : M B :=
  fun st =>
    match m st with
    | (Returned a, st') => k a st'
    | (Thrown msg, st') => (Thrown msg, st')
    end.

(** [try { body } catch (error) { handler(error.message) }] *)
Definition try_catch {A} (body : M A) (handler : jsstr -> M A) : M A :=
  fun st =>
    match body st with
    | (Returned a, st') => (Returned a, st')
    | (Thrown msg, st') => handler msg st'
    end.

Notation "x <- m ;; k" := (bind m (fun x => k))
  (at level 61, m at next level, right associativity).
Notation "m ;; k" := (bind m (fun _ => k))
  (at level 61, right associativity).

(** [for (const x of xs) { acc = body(acc, x) }]: the loop stops at the first
    iteration that throws. *)
Fixpoint for_of {A B} (xs : list A) (body : B -> A -> M B) (acc : B) : M B :=
  match xs with
  | [] => ret acc
  | x :: rest => acc' <- body acc x ;; for_of rest body acc'
  end.

(** [await shopifyAPI.get('/products.json?limit=250')], then
    [response.data.products]. *)
Definition shopifyAPI_get (env : Env) : M (list Product) :=
  fun st =>
    (remote_get env (requests st),
     mkState (automationLogs st) (console st) (requests st ++ [GetProducts])
             (clock_reads st)).

(** [await shopifyAPI.put(`/products/${id}.json`, { product })] *)
Definition shopifyAPI_put (env : Env) (id : N) (product : ProductFields) : M unit :=
  fun st =>
    (remote_put env (requests st) id product,
     mkState (automationLogs st) (console st)
             (requests st ++ [PutProduct id product]) (clock_reads st)).

(* ================================================================= *)
(** * The activity log *)

(** [automationLogs.unshift(entry); if (automationLogs.length > 100) automationLogs.pop()] *)
Definition unshift_capped (entry : ActivityLogEntry) (logs : list ActivityLogEntry)
  : list ActivityLogEntry :=
  let logs' := entry :: logs in
  if Nat.ltb 100 (List.length logs') then removelast logs' else logs'.

Definition logActivity (env : Env) (action details : jsstr) (status : Status) : M unit :=
  fun st =>
    let entry := mkEntry (now env (clock_reads st)) action details status in
    (Returned tt,
     mkState (unshift_capped entry (automationLogs st))
             (console st ++
                [lit "[" ++ toUpperCase (status_text status) ++ lit "] " ++ action
                 ++ lit ":" ++ lit " " ++ details])
             (requests st)
             (S (clock_reads st))).

(* ================================================================= *)
(** * The server *)

Definition unconfigured (env : Env) : bool :=
  falsy (SHOPIFY_STORE env) || falsy (SHOPIFY_ACCESS_TOKEN env).

(** ** [GET /api/products] *)

Definition get_api_products (env : Env) : M HttpResponse :=
  try_catch
    (if unconfigured env
     then ret (mkResponse 200
                 (ProductsBody
                    (Some (lit "Shopify not configured. Set SHOPIFY_STORE and SHOPIFY_ACCESS_TOKEN env vars."))
                    []))
     else
       products <- shopifyAPI_get env ;;
       logActivity env (lit "fetch_products")
         (lit "Fetched " ++ show (N.of_nat (List.length products)) ++ lit " products")
         success ;;
       ret (mkResponse 200 (ProductsBody None products)))
    (fun message =>
       logActivity env (lit "fetch_products") message error ;;
       ret (mkResponse 500 (ErrorBody message))).

(** ** [POST /api/bulk-edit] *)

Definition bulk_edit_body (env : Env) (updates : option jsstr)
    (results : list BulkEditResult) (id : N) : M (list BulkEditResult) :=
  try_catch
    (shopifyAPI_put env id (Updates updates) ;;
     let results := results ++ [mkResult id success None] in
     logActivity env (lit "bulk_update") (lit "Updated product " ++ show id) success ;;
     ret results)
    (fun message =>
       let results := results ++ [mkResult id error (Some message)] in
       logActivity env (lit "bulk_update")
         (lit "Failed to update " ++ show id ++ lit ": " ++ message) error ;;
       ret results).

Definition is_success (r : BulkEditResult) : bool :=
  match result_status r with
  | success => true
  | error => false
  end.

Definition post_api_bulk_edit (env : Env) (productIds : option (list N))
    (updates : option jsstr) : M HttpResponse :=
  results <- for_of (match productIds with Some ids => ids | None => [] end)
                    (bulk_edit_body env updates) [] ;;
  ret (mkResponse 200
         (BulkEditBody results
            (match productIds with Some ids => List.length ids | None => 0 end)
            (List.length (filter is_success results)))).

(** ** Title optimisation *)

(** The callback of [map]: [word.charAt(0).toUpperCase() + word.slice(1).toLowerCase()] *)
Definition capitalize (word : jsstr) : jsstr :=
  toUpperCase (charAt0 word) ++ toLowerCase (slice1 word).

Definition optimizedTitle (originalTitle : jsstr) : jsstr :=
  join [SPACE] (map capitalize (split SPACE (trim (replace_ws originalTitle)))).

Definition optimizeTitles_body (env : Env) (optimized : nat) (product : Product)
  : M nat :=
  let originalTitle := title product in
  let optimizedTitle := optimizedTitle originalTitle in
  if negb (eqb originalTitle optimizedTitle)
  then
    shopifyAPI_put env (id product) (SetTitle optimizedTitle) ;;
    logActivity env (lit "auto_optimize_title")
      (originalTitle ++ lit " -> " ++ optimizedTitle) success ;;
    ret (S optimized)
  else ret optimized.

Definition optimizeTitles (env : Env) : M unit :=
  if unconfigured env then ret tt
  else
    try_catch
      (products <- shopifyAPI_get env ;;
       optimized <- for_of products (optimizeTitles_body env) 0 ;;
       logActivity env (lit "title_optimization_complete")
         (lit "Optimized " ++ show (N.of_nat optimized) ++ lit " product titles")
         success)
      (fun message => logActivity env (lit "title_optimization") message error).

(** ** Inventory tagging *)

(** [v.inventory_quantity || 0] *)
Definition quantity (v : Variant) : Z :=
  match inventory_quantity v with
  | Some q => q
  | None => 0%Z
  end.

(** [product.variants.reduce((sum, v) => sum + (v.inventory_quantity || 0), 0)] *)
Definition totalInventory (product : Product) : Z :=
  fold_left (fun sum v => (sum + quantity v)%Z) (variants product) 0%Z.

Definition updatedTags (product : Product) : jsstr :=
  let newTags :=
    filter (fun t => negb (startsWith (lit "stock-") t))
           (map trim (split COMMA (tags product))) in
  let newTags :=
    if (totalInventory product =? 0)%Z then newTags ++ [lit "stock-out"]
    else if (totalInventory product <? 10)%Z then newTags ++ [lit "stock-low"]
    else newTags ++ [lit "stock-available"] in
  join (lit ", ") newTags.

Definition updateInventoryTags_body (env : Env) (updated : nat) (product : Product)
  : M nat :=
  let updatedTags := updatedTags product in
  if negb (eqb (tags product) updatedTags)
  then
    shopifyAPI_put env (id product) (SetTags updatedTags) ;;
    logActivity env (lit "auto_inventory_tag")
      (lit "Product " ++ show (id product) ++ lit ": " ++ updatedTags) success ;;
    ret (S updated)
  else ret updated.

Definition updateInventoryTags (env : Env) : M unit :=
  if unconfigured env then ret tt
  else
    try_catch
      (products <- shopifyAPI_get env ;;
       updated <- for_of products (updateInventoryTags_body env) 0 ;;
       logActivity env (lit "inventory_tagging_complete")
         (lit "Updated " ++ show (N.of_nat updated) ++ lit " product tags") success)
      (fun message => logActivity env (lit "inventory_tagging") message error).

(** ** SEO descriptions *)

(** [!product.body_html || product.body_html.length < 50] *)
Definition qualifies (product : Product) : bool :=
  falsy (body_html product)
  || match body_html product with
     | Some description => Nat.ltb (length description) 50
     | None => false
     end.

(** The template literal of the source; the two conditional clauses stand
    between the literal spaces of the template. *)
Definition seoDescription (product : Product) : jsstr :=
  lit "Shop " ++ title product ++ lit " at TechHive. "
  ++ (if truthy (product_type product)
      then lit "Category: " ++ product_type product ++ lit "." else [])
  ++ lit " "
  ++ (if truthy (vendor product)
      then lit "Brand: " ++ vendor product ++ lit "." else [])
  ++ lit " Fast shipping and great prices!".

Definition generateSEODescriptions_body (env : Env) (updated : nat)
    (product : Product) : M nat :=
  if qualifies product
  then
    shopifyAPI_put env (id product) (SetBodyHtml (seoDescription product)) ;;
    logActivity env (lit "auto_seo")
      (lit "Generated description for " ++ title product) success ;;
    ret (S updated)
  else ret updated.

Definition generateSEODescriptions (env : Env) : M unit :=
  if unconfigured env then ret tt
  else
    try_catch
      (products <- shopifyAPI_get env ;;
       updated <- for_of products (generateSEODescriptions_body env) 0 ;;
       logActivity env (lit "seo_generation_complete")
         (lit "Generated " ++ show (N.of_nat updated) ++ lit " SEO descriptions")
         success)
      (fun message => logActivity env (lit "seo_generation") message error).

(* ================================================================= *)
(** * The routines, side by side *)

Inductive Routine := TitleOptimization | InventoryTagging | SeoGeneration.

Definition run (r : Routine) : Env -> M unit :=
  match r with
  | TitleOptimization => optimizeTitles
  | InventoryTagging => updateInventoryTags
  | SeoGeneration => generateSEODescriptions
  end.

Definition loop_body (r : Routine) : Env -> nat -> Product -> M nat :=
  match r with
  | TitleOptimization => optimizeTitles_body
  | InventoryTagging => updateInventoryTags_body
  | SeoGeneration => generateSEODescriptions_body
  end.

(** The write-back a routine owes a product: the fields it would send, if
    any. *)
Definition write_back (r : Routine) (product : Product) : option ProductFields :=
  match r with
  | TitleOptimization =>
      if eqb (title product) (optimizedTitle (title product)) then None
      else Some (SetTitle (optimizedTitle (title product)))
  | InventoryTagging =>
      if eqb (tags product) (updatedTags product) then None
      else Some (SetTags (updatedTags product))
  | SeoGeneration =>
      if qualifies product then Some (SetBodyHtml (seoDescription product))
      else None
  end.

(** The action under which a routine logs the error that ended it. *)
Definition error_action (r : Routine) : jsstr :=
  match r with
  | TitleOptimization => lit "title_optimization"
  | InventoryTagging => lit "inventory_tagging"
  | SeoGeneration => lit "seo_generation"
  end.

(** What a routine logs for a product it wrote back. *)
Definition item_action (r : Routine) : jsstr :=
  match r with
  | TitleOptimization => lit "auto_optimize_title"
  | InventoryTagging => lit "auto_inventory_tag"
  | SeoGeneration => lit "auto_seo"
  end.

Definition item_details (r : Routine) (product : Product) : jsstr :=
  match r with
  | TitleOptimization =>
      title product ++ lit " -> " ++ optimizedTitle (title product)
  | InventoryTagging =>
      lit "Product " ++ show (id product) ++ lit ": " ++ updatedTags product
  | SeoGeneration => lit "Generated description for " ++ title product
  end.

(** What a routine logs when its scan completes. *)
Definition summary_action (r : Routine) : jsstr :=
  match r with
  | TitleOptimization => lit "title_optimization_complete"
  | InventoryTagging => lit "inventory_tagging_complete"
  | SeoGeneration => lit "seo_generation_complete"
  end.

Definition summary_details (r : Routine) (count : nat) : jsstr :=
  match r with
  | TitleOptimization =>
      lit "Optimized " ++ show (N.of_nat count) ++ lit " product titles"
  | InventoryTagging =>
      lit "Updated " ++ show (N.of_nat count) ++ lit " product tags"
  | SeoGeneration =>
      lit "Generated " ++ show (N.of_nat count) ++ lit " SEO descriptions"
  end.

(* ================================================================= *)
(** * The specification's vocabulary *)

(** The words of a title: its maximal runs of units that are not white
    space. *)
Fixpoint words (s : jsstr) : list jsstr :=
  match s with
  | [] => []
  | c :: s' =>
      if isWhiteSpace c then words s'
      else match s' with
           | [] => [[c]]
           | d :: _ =>
               if isWhiteSpace d then [c] :: words s'
               else match words s' with
                    | w :: ws => (c :: w) :: ws
                    | [] => [[c]]
                    end
           end
  end.

(** The sum of the variants' quantities, a missing one counting 0. *)
Definition inventory_sum (vs : list Variant) : Z :=
  fold_right (fun v sum => match inventory_quantity v with
                           | Some q => (q + sum)%Z
                           | None => sum
                           end) 0%Z vs.

(** A string without its leading white space. *)
Fixpoint drop_white (s : jsstr) : jsstr :=
  match s with
  | [] => []
  | c :: s' => if isWhiteSpace c then drop_white s' else c :: s'
  end.

(** A string trimmed: without its leading white space and, read backwards,
    without its trailing white space. *)
Definition strip (s : jsstr) : jsstr := rev (drop_white (rev (drop_white s))).

(** Strings set in a row with a separator between each two. *)
Definition sep_by (sep : jsstr) (xs : list jsstr) : jsstr :=
  match xs with
  | [] => []
  | x :: rest => x ++ flat_map (fun y => sep ++ y) rest
  end.

(** A string begins with a prefix: its first units are the prefix. *)
Definition begins_with (prefix s : jsstr) : bool :=
  if list_eq_dec N.eq_dec (firstn (List.length prefix) s) prefix
  then true else false.

(** Two strings differ. *)
Definition differs (a b : jsstr) : bool :=
  if list_eq_dec N.eq_dec a b then false else true.



(** The results that a response to a bulk edit carries. *)
Definition results_of (reply : Outcome HttpResponse * State) : list BulkEditResult :=
  match fst reply with
  | Returned (mkResponse _ (BulkEditBody results _ _)) => results
  | _ => []
  end.

(** The description as the specification words it: each clause carries its
    own trailing space. *)
Definition seo_description_spec (product : Product) : jsstr :=
  lit "Shop " ++ title product ++ lit " at TechHive. "
  ++ (if truthy (product_type product)
      then lit "Category: " ++ product_type product ++ lit ". " else [])
  ++ (if truthy (vendor product)
      then lit "Brand: " ++ vendor product ++ lit ". " else [])
  ++ lit "Fast shipping and great prices!".

(** Failure isolation as the specification words it for the scans: whatever
    the remote catalogue answers, every fetched product that is owed a
    write-back has its write-back sent. *)
Definition failure_isolated (r : Routine) : Prop :=
  forall (env : Env) (st : State) (products : list Product) (p : Product)
         (fields : ProductFields),
    unconfigured env = false ->
    remote_get env (requests st) = Returned products ->
    In p products ->
    write_back r p = Some fields ->
    In (PutProduct (id p) fields) (requests (snd (run r env st))).

(** The write-backs that a routine owes a list of products, in order. *)
Definition owed (r : Routine) (products : list Product) : list Request :=
  flat_map (fun p => match write_back r p with
                     | Some fields => [PutProduct (id p) fields]
                     | None => []
                     end) products.

(** The outcome of a bulk edit, read off the catalogue's answers: one entry
    per id, in order, each from the answer to that id's own request. *)
Fixpoint expected_results (env : Env) (updates : option jsstr)
    (history : list Request) (ids : list N) : list BulkEditResult :=
  match ids with
  | [] => []
  | id :: rest =>
      match remote_put env history id (Updates updates) with
      | Returned _ => mkResult id success None
      | Thrown message => mkResult id error (Some message)
      end
      :: expected_results env updates
           (history ++ [PutProduct id (Updates updates)]) rest
  end.

(** The entries that a sequence of [logActivity] calls creates, oldest
    first, when the clock has been read [n] times before. *)
Fixpoint entries_from (env : Env) (n : nat) (calls : list (jsstr * jsstr * Status))
  : list ActivityLogEntry :=
  match calls with
  | [] => []
  | (action, details, status) :: rest =>
      mkEntry (now env n) action details status :: entries_from env (S n) rest
  end.

(** A sequence of [logActivity] calls. *)
Definition record_all (env : Env) (calls : list (jsstr * jsstr * Status)) : M unit :=
  for_of calls (fun _ call =>
                  match call with
                  | (action, details, status) => logActivity env action details status
                  end) tt.

(* ================================================================= *)
(** * Scenarios *)

Module Scenario.

Definition clock (n : nat) : jsstr := lit "2024-01-01T00:00:00.000Z".

Definition request_failed : jsstr := lit "Request failed with status code 404".

(** A configured server whose catalogue holds [products] and accepts every
    update. *)
Definition healthy (products : list Product) : Env :=
  mkEnv (Some (lit "techhive.myshopify.com")) (Some (lit "shpat_token"))
        (fun _ => Returned products) (fun _ _ _ => Returned tt) clock.

(** A configured server whose catalogue holds [products] and refuses every
    update. *)
Definition read_only (products : list Product) : Env :=
  mkEnv (Some (lit "techhive.myshopify.com")) (Some (lit "shpat_token"))
        (fun _ => Returned products) (fun _ _ _ => Thrown request_failed) clock.

(** A catalogue that refuses the second request it receives and accepts the
    others. *)
Definition second_fails : Env :=
  mkEnv (Some (lit "techhive.myshopify.com")) (Some (lit "shpat_token"))
        (fun _ => Returned [])
        (fun history _ _ =>
           if Nat.eqb (List.length history) 1 then Thrown request_failed
           else Returned tt)
        clock.

(** The store identifier is not set. *)
Definition no_store : Env :=
  mkEnv None (Some (lit "shpat_token"))
        (fun _ => Returned []) (fun _ _ _ => Returned tt) clock.

(** A server whose clock shows the number of times it was read, so that the
    entries of the log tell their order of insertion. *)
Definition ticking : Env :=
  mkEnv (Some (lit "techhive.myshopify.com")) (Some (lit "shpat_token"))
        (fun _ => Returned []) (fun _ _ _ => Returned tt)
        (fun n => show (N.of_nat n)).

Definition product (id : N) (title tags : jsstr) (description : option jsstr)
    (vendor product_type : jsstr) (quantities : list (option Z)) : Product :=
  mkProduct id title tags description vendor product_type (map mkVariant quantities).

(** A description of 49 characters, no product type, vendor Acme. *)
Definition acme : Product :=
  product 1 (lit "X") (lit "") (Some (repeat 97%N 49)) (lit "Acme") (lit "") [].

Definition mouse : Product :=
  product 2 (lit "  wireLESS   mouse ") (lit "sale, stock-available") None
          (lit "Acme") (lit "Peripherals") [Some 4%Z; None; Some 5%Z].

Definition keyboard : Product :=
  product 3 (lit "usb keyboard") (lit "") None (lit "") (lit "") [Some 0%Z].

End Scenario.

(* ================================================================= *)
(** * The health check, the scheduler, and the catalogue after a write-back *)

(** [!!(SHOPIFY_STORE && SHOPIFY_ACCESS_TOKEN)]: [a && b] is [a] when [a] is
    falsy and [b] otherwise. *)
Definition shopifyConfigured (env : Env) : bool :=
  negb (falsy (if falsy (SHOPIFY_STORE env) then SHOPIFY_STORE env
               else SHOPIFY_ACCESS_TOKEN env)).

Record HealthBody := mkHealth {
  health_status : jsstr;
  health_timestamp : jsstr;
  health_shopifyConfigured : bool
}.

(** [GET /health]: it reads the clock and nothing else. *)
Definition get_health (env : Env) : M (N * HealthBody) :=
  fun st =>
    (Returned (200%N,
               mkHealth (lit "healthy") (now env (clock_reads st))
                        (shopifyConfigured env)),
     mkState (automationLogs st) (console st) (requests st)
             (S (clock_reads st))).

(** The callbacks of [cron.schedule]: the entry, then the routine. The
    callback does not wait for the routine; here the routine runs to its
    end. *)
Definition scheduled (r : Routine) (env : Env) : M unit :=
  match r with
  | TitleOptimization =>
      logActivity env (lit "scheduled_task")
        (lit "Running daily title optimization") success ;;
      optimizeTitles env
  | InventoryTagging =>
      logActivity env (lit "scheduled_task")
        (lit "Running inventory tag update") success ;;
      updateInventoryTags env
  | SeoGeneration =>
      logActivity env (lit "scheduled_task")
        (lit "Running weekly SEO generation") success ;;
      generateSEODescriptions env
  end.

(** The [productIds] of a request body as the handler of
    [POST /api/bulk-edit] meets it: falsy (absent, [null], [false], [0],
    ['']), so that [productIds || []] is the empty array; an array of ids;
    or a truthy value that cannot be iterated (a number, [true], an object),
    on which the [for ... of] throws a [TypeError] with the runtime's
    message. *)
Inductive ProductIdsField :=
| Falsy
| IdArray (ids : list N)
| NotIterable (type_error : jsstr).

(** The handler on any such body. The [for ... of] stands outside every
    [try], so its [TypeError] leaves the handler. *)
Definition bulk_edit_handler (env : Env) (productIds : ProductIdsField)
    (updates : option jsstr) : M HttpResponse :=
  match productIds with
  | Falsy => post_api_bulk_edit env None updates
  | IdArray ids => post_api_bulk_edit env (Some ids) updates
  | NotIterable type_error => fun st => (Thrown type_error, st)
  end.

(** The product as the catalogue holds it once a write-back of its tags, or
    of its description, has been applied. *)
Definition with_tags (product : Product) (new_tags : jsstr) : Product :=
  mkProduct (id product) (title product) new_tags (body_html product)
            (vendor product) (product_type product) (variants product).

Definition with_body_html (product : Product) (description : jsstr) : Product :=
  mkProduct (id product) (title product) (tags product) (Some description)
            (vendor product) (product_type product) (variants product).

(** The tags that the inventory scan keeps: the trimmed pieces of the tags
    field that do not begin with [stock-]. *)
Definition kept_tags (product : Product) : list jsstr :=
  filter (fun t => negb (startsWith (lit "stock-") t))
         (map trim (split COMMA (tags product))).

(** The log is within its capacity. *)
Definition within_capacity (st : State) : Prop :=
  List.length (automationLogs st) <= 100.

(** A computation keeps a property of the state. *)
Definition keeps (P : State -> Prop) {A : Type} (m : M A) : Prop :=
  forall st, P st -> P (snd (m st)).

Module Outage.

Definition network_error : jsstr := lit "Network Error".

(** A configured server that cannot reach the catalogue. *)
Definition unreachable : Env :=
  mkEnv (Some (lit "techhive.myshopify.com")) (Some (lit "shpat_token"))
        (fun _ => Thrown network_error) (fun _ _ _ => Thrown network_error)
        Scenario.clock.

(** The access token is set to the empty string. *)
Definition empty_token : Env :=
  mkEnv (Some (lit "techhive.myshopify.com")) (Some [])
        (fun _ => Returned [Scenario.mouse]) (fun _ _ _ => Returned tt)
        Scenario.clock.


End Outage.

Module Client.

(** A catalogue client whose errors carry an empty message. *)
Definition silent : Env :=
  mkEnv (Some (lit "techhive.myshopify.com")) (Some (lit "shpat_token"))
        (fun _ => Returned []) (fun _ _ _ => Thrown []) Scenario.clock.

End Client.

(* ================================================================= *)
(** * Strings: what the primitives do *)

Section Strings.

Local Open Scope N_scope.

Lemma eqb_eq (a b : jsstr) : eqb a b = true <-> a = b.
Proof.
  revert b; induction a as [|x a IH]; intros [|y b]; simpl; split;
    try congruence; try reflexivity.
  - intros H. apply andb_true_iff in H as [Hx Hab].
    apply N.eqb_eq in Hx. apply IH in Hab. congruence.
  - intros H. injection H as -> ->. rewrite N.eqb_refl. simpl. now apply IH.
Qed.

Lemma eqb_neq (a b : jsstr) : eqb a b = false <-> a <> b.
Proof.
  split.
  - intros H E. apply eqb_eq in E. congruence.
  - intros H. destruct (eqb a b) eqn:E; [|reflexivity].
    apply eqb_eq in E. contradiction.
Qed.

Lemma split_not_nil (sep : N) (s : jsstr) : split sep s <> [].
Proof.
  destruct s as [|c s]; simpl; [discriminate|].
  destruct (c =? sep); [discriminate|].
  destruct (split sep s); discriminate.
Qed.

(** Joining the pieces with the separator gives the string back. *)
Lemma join_split (sep : N) (s : jsstr) : join [sep] (split sep s) = s.
Proof.
  induction s as [|c s IH]; simpl; [reflexivity|].
  destruct (c =? sep) eqn:E.
  - apply N.eqb_eq in E; subst c.
    pose proof (split_not_nil sep s) as Hn.
    destruct (split sep s) as [|p ps]; [contradiction|].
    simpl in *. now rewrite IH.
  - pose proof (split_not_nil sep s) as Hn.
    destruct (split sep s) as [|p ps]; [contradiction|].
    destruct ps; simpl in *; now rewrite <- IH.
Qed.

(** No piece holds the separator. *)
Lemma split_pieces (sep : N) (s : jsstr) :
  Forall (fun piece => ~ In sep piece) (split sep s).
Proof.
  induction s as [|c s IH]; simpl.
  - constructor; [intros []|constructor].
  - destruct (c =? sep) eqn:E.
    + constructor; [intros []|exact IH].
    + apply N.eqb_neq in E.
      destruct (split sep s) as [|p ps].
      * constructor; [|constructor]. intros [H|[]]. congruence.
      * inversion IH; subst. constructor; [|assumption].
        intros [H|H]; [congruence|contradiction].
Qed.

Lemma split_free (sep : N) (w : jsstr) : ~ In sep w -> split sep w = [w].
Proof.
  induction w as [|c w IH]; simpl; intros H; [reflexivity|].
  destruct (c =? sep) eqn:E.
  - apply N.eqb_eq in E. exfalso. apply H. now left.
  - rewrite IH; [reflexivity|]. intros Hin. apply H. now right.
Qed.

Lemma split_app_sep (sep : N) (w rest : jsstr) :
  ~ In sep w -> split sep (w ++ sep :: rest) = w :: split sep rest.
Proof.
  induction w as [|c w IH]; simpl; intros H.
  - now rewrite N.eqb_refl.
  - destruct (c =? sep) eqn:E.
    + apply N.eqb_eq in E. exfalso. apply H. now left.
    + rewrite IH; [reflexivity|]. intros Hin. apply H. now right.
Qed.

(** Splitting what was joined gives the pieces back. *)
Lemma split_join (sep : N) (pieces : list jsstr) :
  pieces <> [] -> Forall (fun piece => ~ In sep piece) pieces ->
  split sep (join [sep] pieces) = pieces.
Proof.
  induction pieces as [|p ps IH]; intros Hn Hf; [contradiction|].
  inversion Hf as [|? ? Hp Hps]; subst.
  destruct ps as [|q ps].
  - simpl. now apply split_free.
  - change (join [sep] (p :: q :: ps)) with (p ++ sep :: join [sep] (q :: ps)).
    rewrite split_app_sep by assumption.
    rewrite IH; [reflexivity|discriminate|assumption].
Qed.

Lemma trimEnd_keeps (c : N) (s : jsstr) :
  isWhiteSpace c = false -> trimEnd (c :: s) = c :: trimEnd s.
Proof.
  intros H. simpl. rewrite H. now destruct (trimEnd s).
Qed.

Lemma trimStart_fixed (s : jsstr) :
  trimStart (replace_ws_from true s) = replace_ws_from true s.
Proof.
  induction s as [|c s IH]; simpl; [reflexivity|].
  destruct (isWhiteSpace c) eqn:E; [exact IH|].
  simpl. now rewrite E.
Qed.

Lemma trimStart_replace_ws (s : jsstr) :
  trimStart (replace_ws s) = replace_ws_from true s.
Proof.
  unfold replace_ws. destruct s as [|c s]; simpl; [reflexivity|].
  destruct (isWhiteSpace c) eqn:E.
  - simpl. apply trimStart_fixed.
  - simpl. now rewrite E.
Qed.

Lemma words_head (c : N) (s : jsstr) :
  isWhiteSpace c = false -> words (c :: s) <> [].
Proof.
  intros H. simpl. rewrite H. destruct s as [|d s]; [discriminate|].
  destruct (isWhiteSpace d); [discriminate|].
  destruct (words (d :: s)); discriminate.
Qed.

(** Every word is non-empty and free of white space. *)
Lemma words_shape (s : jsstr) :
  Forall (fun w => w <> [] /\ forallb (fun c => negb (isWhiteSpace c)) w = true)
         (words s).
Proof.
  induction s as [|c s IH]; [constructor|].
  cbn [words]. destruct (isWhiteSpace c) eqn:E; [exact IH|].
  destruct s as [|d s].
  - constructor; [|constructor]. split; [discriminate|]. simpl. now rewrite E.
  - destruct (isWhiteSpace d) eqn:Ed.
    + constructor; [|exact IH]. split; [discriminate|]. simpl. now rewrite E.
    + destruct (words (d :: s)) as [|w ws].
      * constructor; [|constructor]. split; [discriminate|]. simpl. now rewrite E.
      * inversion IH as [|? ? [_ Hw] Hws]; subst.
        constructor; [|assumption]. split; [discriminate|].
        simpl. now rewrite E.
Qed.

Lemma join_nil_iff (sep : jsstr) (ws : list jsstr) :
  Forall (fun w => w <> []) ws -> (join sep ws = [] <-> ws = []).
Proof.
  intros H. split; [|now intros ->].
  destruct ws as [|w ws]; [reflexivity|].
  inversion H; subst. destruct w; [contradiction|].
  destruct ws; simpl; discriminate.
Qed.

End Strings.

(* ================================================================= *)
(** * Titles: the pipeline and the words of a title *)

Section Titles.

Local Open Scope N_scope.

Lemma words_nonempty (s : jsstr) : Forall (fun w => w <> []) (words s).
Proof.
  eapply Forall_impl; [|apply words_shape]. now intros w [H _].
Qed.

(** After the scan and the trim, the words stand one space apart. With
    [in_run] set the scan has dropped the leading white space; without it a
    leading run leaves its one space. *)
Lemma normalise_from (s : jsstr) :
  trimEnd (replace_ws_from true s) = join [SPACE] (words s)
  /\ trimEnd (replace_ws_from false s) =
     match s with
     | [] => []
     | c :: _ =>
         if isWhiteSpace c
         then match words s with
              | [] => []
              | _ :: _ => SPACE :: join [SPACE] (words s)
              end
         else join [SPACE] (words s)
     end.
Proof.
  induction s as [|c s [IHt IHf]]; [split; reflexivity|].
  assert (Hsp : isWhiteSpace SPACE = true) by reflexivity.
  destruct (isWhiteSpace c) eqn:E.
  - (* a white space unit *)
    assert (Hw : words (c :: s) = words s) by (simpl; now rewrite E).
    split.
    + cbn [replace_ws_from]. rewrite E, Hw. exact IHt.
    + cbn [replace_ws_from]. rewrite E. cbn [trimEnd]. rewrite IHt, Hsp, Hw.
      pose proof (join_nil_iff [SPACE] (words s) (words_nonempty s)) as Hj.
      destruct (words s) as [|w ws] eqn:Ew.
      * reflexivity.
      * assert (Hne : join [SPACE] (w :: ws) <> []).
        { intros Ej. apply Hj in Ej. discriminate. }
        destruct (join [SPACE] (w :: ws)); [now elim Hne|reflexivity].
  - (* the first unit of a word *)
    assert (Hc : trimEnd (c :: replace_ws_from false s)
                 = join [SPACE] (words (c :: s))).
    { rewrite trimEnd_keeps by assumption. rewrite IHf.
      cbn [words]. rewrite E.
      destruct s as [|d s]; [reflexivity|].
      destruct (isWhiteSpace d) eqn:Ed.
      - destruct (words (d :: s)) as [|w ws]; reflexivity.
      - destruct (words (d :: s)) as [|w ws]; [reflexivity|].
        destruct ws; reflexivity. }
    split; cbn [replace_ws_from]; rewrite E; exact Hc.
Qed.

(** [title.replace(/\s+/g, ' ').trim()] is the words of the title, one
    space apart. *)
Lemma normalise_words (s : jsstr) :
  trim (replace_ws s) = join [SPACE] (words s).
Proof.
  unfold trim. rewrite trimStart_replace_ws. apply normalise_from.
Qed.

Lemma nows_not_space (w : jsstr) :
  forallb (fun c => negb (isWhiteSpace c)) w = true -> ~ In SPACE w.
Proof.
  intros H Hin. rewrite forallb_forall in H. apply H in Hin. discriminate.
Qed.

(** The tokens that [split(' ')] finds are the words; a title with no word
    gives the one empty token. *)
Lemma tokens_words (s : jsstr) :
  split SPACE (trim (replace_ws s)) =
  match words s with
  | [] => [[]]
  | ws => ws
  end.
Proof.
  rewrite normalise_words.
  destruct (words s) as [|w ws] eqn:E; [reflexivity|].
  apply split_join; [discriminate|].
  rewrite <- E. eapply Forall_impl; [|apply words_shape].
  intros a [_ H]. now apply nows_not_space.
Qed.

Lemma capitalize_cons (c : N) (w : jsstr) :
  capitalize (c :: w) = upper_unit c ++ toLowerCase w.
Proof.
  unfold capitalize, toUpperCase. simpl. now rewrite app_nil_r.
Qed.

(** The optimised title is the title-cased words, one space apart. *)
Lemma optimizedTitle_words (s : jsstr) :
  optimizedTitle s = join [SPACE] (map capitalize (words s)).
Proof.
  unfold optimizedTitle. rewrite tokens_words.
  destruct (words s); reflexivity.
Qed.

End Titles.

(* ================================================================= *)
(** * Case mapping *)

Section CaseMapping.

Local Open Scope N_scope.

Ltac to_prop H :=
  rewrite ?andb_true_iff, ?andb_false_iff, ?negb_true_iff, ?negb_false_iff,
    ?N.leb_le, ?N.leb_gt, ?N.eqb_eq, ?N.eqb_neq in H.

Ltac split_ifs :=
  repeat match goal with
         | |- context [if ?b then _ else _] =>
             let C := fresh "C" in destruct b eqn:C; to_prop C
         end.

(** The printable units below U+1680, NBSP apart, are not white space. *)
Lemma visible_not_ws (c : N) :
  0x21 <= c <= 0x9F \/ 0xA1 <= c <= 0x167F -> isWhiteSpace c = false.
Proof.
  intros H. unfold isWhiteSpace.
  rewrite !orb_false_iff. repeat split;
    first [ apply N.eqb_neq; lia
          | apply andb_false_iff; left; apply N.leb_gt; lia ].
Qed.

(** Lower-casing maps a unit to one unit, which lower-casing leaves alone. *)
Lemma lower_unit_settles (c : N) :
  exists l, lower_unit c = [l] /\ lower_unit l = [l]
            /\ (isWhiteSpace c = false -> isWhiteSpace l = false).
Proof.
  unfold lower_unit at 1. split_ifs.
  - exists (c + 0x20). repeat split.
    + unfold lower_unit. split_ifs; first [reflexivity | exfalso; lia].
    + intros _. apply visible_not_ws. lia.
  - exists (c + 0x20). repeat split.
    + unfold lower_unit. split_ifs; first [reflexivity | exfalso; lia].
    + intros _. apply visible_not_ws. lia.
  - exists c. repeat split; [|tauto].
    unfold lower_unit. split_ifs; first [reflexivity | exfalso; lia].
Qed.

(** Upper-casing maps every unit but U+00DF to one unit, which upper-casing
    leaves alone. *)
Lemma upper_unit_settles (c : N) :
  c <> 0xDF ->
  exists u, upper_unit c = [u] /\ upper_unit u = [u]
            /\ (isWhiteSpace c = false -> isWhiteSpace u = false).
Proof.
  intros Hc. unfold upper_unit at 1. split_ifs; try (exfalso; lia).
  - exists (c - 0x20). repeat split.
    + unfold upper_unit. split_ifs; first [reflexivity | exfalso; lia].
    + intros _. apply visible_not_ws. lia.
  - exists 0x39C. repeat split.
  - exists (c - 0x20). repeat split.
    + unfold upper_unit. split_ifs; first [reflexivity | exfalso; lia].
    + intros _. apply visible_not_ws. lia.
  - exists 0x178. repeat split.
  - exists c. repeat split; [|tauto].
    unfold upper_unit. split_ifs; first [reflexivity | exfalso; lia].
Qed.

Lemma upper_unit_visible (c : N) :
  isWhiteSpace c = false ->
  upper_unit c <> [] /\ forallb (fun u => negb (isWhiteSpace u)) (upper_unit c) = true.
Proof.
  intros H. destruct (N.eq_dec c 0xDF) as [->|Hc].
  - split; [discriminate|reflexivity].
  - destruct (upper_unit_settles c Hc) as (u & -> & _ & Hu).
    split; [discriminate|]. simpl. now rewrite (Hu H).
Qed.

Lemma toLowerCase_visible (w : jsstr) :
  forallb (fun c => negb (isWhiteSpace c)) w = true ->
  forallb (fun c => negb (isWhiteSpace c)) (toLowerCase w) = true.
Proof.
  induction w as [|c w IH]; simpl; [reflexivity|].
  intros H. apply andb_true_iff in H as [Hc Hw].
  destruct (lower_unit_settles c) as (l & -> & _ & Hl).
  simpl. rewrite (IH Hw). apply negb_true_iff in Hc. now rewrite (Hl Hc).
Qed.

Lemma toLowerCase_idempotent (w : jsstr) :
  toLowerCase (toLowerCase w) = toLowerCase w.
Proof.
  induction w as [|c w IH]; simpl; [reflexivity|].
  destruct (lower_unit_settles c) as (l & -> & Hl & _).
  simpl. unfold toLowerCase in *. rewrite Hl, IH. reflexivity.
Qed.

(** Title-casing a word leaves a word. *)
Lemma capitalize_word (w : jsstr) :
  w <> [] /\ forallb (fun c => negb (isWhiteSpace c)) w = true ->
  capitalize w <> []
  /\ forallb (fun c => negb (isWhiteSpace c)) (capitalize w) = true.
Proof.
  intros [Hn Hw]. destruct w as [|c w]; [contradiction|].
  simpl in Hw. apply andb_true_iff in Hw as [Hc Hw].
  apply negb_true_iff in Hc.
  rewrite capitalize_cons.
  destruct (upper_unit_visible c Hc) as [Hu1 Hu2].
  split.
  - destruct (upper_unit c); [contradiction|discriminate].
  - rewrite forallb_app, Hu2. simpl. now apply toLowerCase_visible.
Qed.

(** Title-casing twice is title-casing once, for a word that does not begin
    with U+00DF. *)
Lemma capitalize_idempotent (w : jsstr) :
  startsWith [0xDF] w = false -> capitalize (capitalize w) = capitalize w.
Proof.
  destruct w as [|c w]; [reflexivity|].
  intros H. cbn [startsWith] in H. rewrite andb_true_r in H.
  apply N.eqb_neq in H.
  rewrite capitalize_cons.
  destruct (upper_unit_settles c) as (u & -> & Hu & _); [congruence|].
  simpl. rewrite capitalize_cons, Hu, toLowerCase_idempotent. reflexivity.
Qed.

End CaseMapping.

(* ================================================================= *)
(** * The loop bodies and the skeleton of a scan *)

Section Scans.

Variable env : Env.

Lemma for_of_app (A B : Type) (xs ys : list A) (body : B -> A -> M B) (acc : B)
    (st : State) :
  for_of (xs ++ ys) body acc st =
  (acc' <- for_of xs body acc ;; for_of ys body acc') st.
Proof.
  revert acc st. induction xs as [|x xs IH]; intros acc st; [reflexivity|].
  simpl. unfold bind. destruct (body acc x st) as [[acc'|msg] st'].
  - rewrite IH. reflexivity.
  - reflexivity.
Qed.

(** One iteration: nothing at all for a product that is owed no write-back;
    otherwise the request, the log entry and the count. *)
Lemma loop_body_eq (r : Routine) (count : nat) (product : Product) :
  loop_body r env count product =
  match write_back r product with
  | None => ret count
  | Some fields =>
      shopifyAPI_put env (id product) fields ;;
      logActivity env (item_action r) (item_details r product) success ;;
      ret (S count)
  end.
Proof.
  destruct r; simpl.
  - unfold optimizeTitles_body.
    now destruct (eqb (title product) (optimizedTitle (title product))).
  - unfold updateInventoryTags_body.
    now destruct (eqb (tags product) (updatedTags product)).
  - unfold generateSEODescriptions_body. now destruct (qualifies product).
Qed.

Lemma loop_body_skip (r : Routine) (count : nat) (product : Product) (st : State) :
  write_back r product = None ->
  loop_body r env count product st = (Returned count, st).
Proof. intros H. now rewrite loop_body_eq, H. Qed.

Lemma loop_body_requests (r : Routine) (count : nat) (product : Product)
    (fields : ProductFields) (st : State) :
  write_back r product = Some fields ->
  requests (snd (loop_body r env count product st)) =
  requests st ++ [PutProduct (id product) fields].
Proof.
  intros H. rewrite loop_body_eq, H.
  unfold bind, shopifyAPI_put, logActivity, ret. simpl.
  now destruct (remote_put env (requests st) (id product) fields).
Qed.

(** A configured routine: fetch, scan, summary; one handler around all of
    it. *)
Lemma run_eq (r : Routine) :
  unconfigured env = false ->
  run r env =
  try_catch
    (products <- shopifyAPI_get env ;;
     count <- for_of products (loop_body r env) 0 ;;
     logActivity env (summary_action r) (summary_details r count) success)
    (fun message => logActivity env (error_action r) message error).
Proof.
  intros H. destruct r; simpl;
    [unfold optimizeTitles|unfold updateInventoryTags|unfold generateSEODescriptions];
    now rewrite H.
Qed.

Lemma run_unconfigured (r : Routine) (st : State) :
  unconfigured env = true -> run r env st = (Returned tt, st).
Proof.
  intros H. destruct r; simpl;
    [unfold optimizeTitles|unfold updateInventoryTags|unfold generateSEODescriptions];
    now rewrite H.
Qed.

(** A scan that returns has sent the write-backs owed to its products, in
    order, and nothing else. *)
Lemma for_of_returned (r : Routine) (products : list Product) (count count' : nat)
    (st st' : State) :
  for_of products (loop_body r env) count st = (Returned count', st') ->
  requests st' = requests st ++ owed r products.
Proof.
  revert count st. induction products as [|p products IH]; intros count st H.
  - cbn in H. injection H as _ <-. cbn. now rewrite app_nil_r.
  - cbn [for_of] in H. unfold bind in H.
    destruct (loop_body r env count p st) as [[count1|message] st1] eqn:Hb;
      [|discriminate].
    apply IH in H. rewrite H.
    unfold owed. cbn [flat_map]. fold (owed r products).
    destruct (write_back r p) as [fields|] eqn:W.
    + pose proof (loop_body_requests r count p fields st W) as R.
      rewrite Hb in R. cbn [snd] in R. rewrite R. now rewrite <- app_assoc.
    + rewrite (loop_body_skip r count p st W) in Hb.
      injection Hb as _ <-. reflexivity.
Qed.

(** The request that fails ends the whole routine. *)
Lemma run_aborts (r : Routine) (st : State) (pre post : list Product) (p : Product)
    (fields : ProductFields) (count : nat) (st1 : State) (message : jsstr) :
  unconfigured env = false ->
  remote_get env (requests st) = Returned (pre ++ p :: post) ->
  for_of pre (loop_body r env) 0 (snd (shopifyAPI_get env st)) = (Returned count, st1) ->
  write_back r p = Some fields ->
  remote_put env (requests st1) (id p) fields = Thrown message ->
  run r env st =
  logActivity env (error_action r) message error
    (mkState (automationLogs st1) (console st1)
             (requests st1 ++ [PutProduct (id p) fields]) (clock_reads st1)).
Proof.
  intros U G Hpre W F.
  rewrite run_eq by assumption.
  unfold shopifyAPI_get in Hpre. cbn [snd] in Hpre.
  unfold try_catch. unfold bind at 1. unfold shopifyAPI_get. rewrite G.
  unfold bind at 1. rewrite for_of_app.
  unfold bind at 1. rewrite Hpre.
  cbn [for_of]. unfold bind at 1. rewrite loop_body_eq, W.
  unfold bind at 1. unfold shopifyAPI_put. rewrite F. reflexivity.
Qed.

(** When the catalogue accepts every update, a scan returns and has sent
    every write-back owed. *)
Lemma for_of_healthy (r : Routine) (products : list Product) (count : nat)
    (st : State) :
  (forall history id fields, remote_put env history id fields = Returned tt) ->
  exists count' st',
    for_of products (loop_body r env) count st = (Returned count', st')
    /\ requests st' = requests st ++ owed r products.
Proof.
  intros H. revert count st.
  induction products as [|p products IH]; intros count st.
  - exists count, st. split; [reflexivity|]. cbn. now rewrite app_nil_r.
  - cbn [for_of]. unfold bind at 1. rewrite loop_body_eq.
    unfold owed. cbn [flat_map]. fold (owed r products).
    destruct (write_back r p) as [fields|].
    + unfold bind, shopifyAPI_put, logActivity, ret. rewrite H.
      match goal with
      | |- context [for_of products _ ?c ?s] =>
          destruct (IH c s) as (count' & st' & Hf & Hr)
      end.
      exists count', st'. split; [exact Hf|].
      rewrite Hr. cbn [requests]. now rewrite <- app_assoc.
    + unfold ret. destruct (IH count st) as (count' & st' & Hf & Hr).
      exists count', st'. split; [exact Hf|exact Hr].
Qed.

Lemma run_healthy (r : Routine) (products : list Product) (st : State) :
  unconfigured env = false ->
  remote_get env (requests st) = Returned products ->
  (forall history id fields, remote_put env history id fields = Returned tt) ->
  fst (run r env st) = Returned tt
  /\ requests (snd (run r env st))
     = requests st ++ [GetProducts] ++ owed r products.
Proof.
  intros U G H.
  destruct (for_of_healthy r products 0 (snd (shopifyAPI_get env st)) H)
    as (count' & st' & Hf & Hr).
  assert (E : run r env st
              = logActivity env (summary_action r) (summary_details r count')
                  success st').
  { rewrite run_eq by assumption.
    unfold try_catch, bind. unfold shopifyAPI_get in Hf |- *. rewrite G.
    cbn [snd] in Hf. cbn beta iota. rewrite Hf. reflexivity. }
  rewrite E. split; [reflexivity|].
  unfold logActivity. cbn [snd requests]. rewrite Hr.
  unfold shopifyAPI_get. cbn [snd requests]. now rewrite <- app_assoc.
Qed.

End Scans.

(* ================================================================= *)
(** * Title optimisation *)

Section TitleOptimisation.

Local Open Scope N_scope.

Lemma words_step (c d : N) (s : jsstr) :
  isWhiteSpace c = false -> isWhiteSpace d = false ->
  words (c :: d :: s) =
  match words (d :: s) with
  | w :: ws => (c :: w) :: ws
  | [] => [[c]]
  end.
Proof. intros Hc Hd. simpl. now rewrite Hc, Hd. Qed.

Lemma words_of_word (c : N) (w : jsstr) :
  isWhiteSpace c = false ->
  forallb (fun u => negb (isWhiteSpace u)) w = true ->
  words (c :: w) = [c :: w].
Proof.
  revert c. induction w as [|d w IH]; intros c Hc Hw.
  - simpl. now rewrite Hc.
  - simpl in Hw. apply andb_true_iff in Hw as [Hd Hw].
    apply negb_true_iff in Hd.
    rewrite words_step by assumption. now rewrite (IH d Hd Hw).
Qed.

Lemma words_word_space (c : N) (w rest : jsstr) :
  isWhiteSpace c = false ->
  forallb (fun u => negb (isWhiteSpace u)) w = true ->
  words ((c :: w) ++ SPACE :: rest) = (c :: w) :: words rest.
Proof.
  revert c. induction w as [|d w IH]; intros c Hc Hw.
  - simpl. now rewrite Hc.
  - simpl in Hw. apply andb_true_iff in Hw as [Hd Hw].
    apply negb_true_iff in Hd.
    change ((c :: d :: w) ++ SPACE :: rest)
      with (c :: d :: (w ++ SPACE :: rest)).
    rewrite words_step by assumption.
    change (d :: w ++ SPACE :: rest) with ((d :: w) ++ SPACE :: rest).
    now rewrite (IH d Hd Hw).
Qed.

(** The words of words set one space apart are those words. *)
Lemma words_join (ws : list jsstr) :
  Forall (fun w => w <> [] /\ forallb (fun c => negb (isWhiteSpace c)) w = true) ws ->
  words (join [SPACE] ws) = ws.
Proof.
  induction ws as [|w ws IH]; intros H; [reflexivity|].
  inversion H as [|? ? [Hn Hw] Hws]; subst.
  destruct w as [|c w]; [contradiction|].
  simpl in Hw. apply andb_true_iff in Hw as [Hc Hw].
  apply negb_true_iff in Hc.
  destruct ws as [|v ws].
  - simpl. now apply words_of_word.
  - change (join [SPACE] ((c :: w) :: v :: ws))
      with ((c :: w) ++ SPACE :: join [SPACE] (v :: ws)).
    rewrite words_word_space by assumption.
    now rewrite IH.
Qed.

(** The words of an optimised title are the title-cased words of the
    title. *)
Lemma words_optimizedTitle (t : jsstr) :
  words (optimizedTitle t) = map capitalize (words t).
Proof.
  rewrite optimizedTitle_words. apply words_join.
  apply Forall_map. eapply Forall_impl; [|apply words_shape].
  intros w H. now apply capitalize_word.
Qed.

(** Idempotence of the optimisation on a title none of whose words begins
    with U+00DF. *)
Lemma optimizedTitle_idempotent (t : jsstr) :
  forallb (fun w => negb (startsWith [0xDF] w)) (words t) = true ->
  optimizedTitle (optimizedTitle t) = optimizedTitle t.
Proof.
  intros H.
  rewrite (optimizedTitle_words (optimizedTitle t)), words_optimizedTitle.
  rewrite optimizedTitle_words, map_map. f_equal.
  apply map_ext_in. intros w Hw.
  rewrite forallb_forall in H. specialize (H w Hw).
  apply negb_true_iff in H. now apply capitalize_idempotent.
Qed.

(** C8, as the code has it: optimising twice is optimising once for every
    title of Latin-1 characters in which no word begins with U+00DF. *)
Theorem title_optimization_idempotent (t : jsstr) :
  forallb (fun c => c <=? 0xFF) t = true ->
  forallb (fun w => negb (startsWith [0xDF] w)) (words t) = true ->
  optimizedTitle (optimizedTitle t) = optimizedTitle t.
Proof.
  intros _. apply optimizedTitle_idempotent.
Qed.

Lemma title_optimization_idempotent_witness :
  optimizedTitle (optimizedTitle (lit "  wireLESS   mouse "))
  = optimizedTitle (lit "  wireLESS   mouse ").
Proof.
  apply (title_optimization_idempotent (lit "  wireLESS   mouse "));
    reflexivity.
Defined.

(** C8, as the specification has it, fails: U+00DF upper-cases to the two
    units of [SS], and the second pass lower-cases the second of them. *)
Lemma title_optimization_not_idempotent :
  optimizedTitle [0xDF; 0x61] = lit "SSa"
  /\ optimizedTitle (optimizedTitle [0xDF; 0x61]) = lit "Ssa"
  /\ ~ (forall t, optimizedTitle (optimizedTitle t) = optimizedTitle t).
Proof.
  repeat split. intros H. specialize (H [0xDF; 0x61]). discriminate H.
Qed.

End TitleOptimisation.

(* ================================================================= *)
(** * Inventory tagging *)

Section InventoryTagging.

Local Open Scope Z_scope.

Lemma fold_quantities (vs : list Variant) (sum : Z) :
  fold_left (fun sum v => sum + quantity v) vs sum = sum + inventory_sum vs.
Proof.
  revert sum. induction vs as [|v vs IH]; intros sum.
  - cbn. lia.
  - cbn [fold_left inventory_sum fold_right]. rewrite IH.
    fold (inventory_sum vs). unfold quantity.
    destruct (inventory_quantity v); lia.
Qed.

(** The reduction over the variants is the sum of their quantities. *)
Lemma totalInventory_sum (product : Product) :
  totalInventory product = inventory_sum (variants product).
Proof. unfold totalInventory. now rewrite fold_quantities. Qed.

(** [trimStart] removes a white prefix and stops at the first unit that is
    not white space. *)
Lemma trimStart_spec (s : jsstr) :
  exists a, s = a ++ trimStart s /\ forallb isWhiteSpace a = true
            /\ match trimStart s with
               | [] => True
               | c :: _ => isWhiteSpace c = false
               end.
Proof.
  induction s as [|c s (a & Ha & Hw & Hh)].
  - exists []. now repeat split.
  - simpl. destruct (isWhiteSpace c) eqn:E.
    + exists (c :: a). repeat split.
      * simpl. now rewrite <- Ha.
      * simpl. now rewrite E.
      * exact Hh.
    + exists []. repeat split. exact E.
Qed.

(** [trimEnd] removes a white suffix and stops at the last unit that is not
    white space. *)
Lemma trimEnd_spec (s : jsstr) :
  exists b, s = trimEnd s ++ b /\ forallb isWhiteSpace b = true
            /\ (trimEnd s = [] \/ isWhiteSpace (last (trimEnd s) 0%N) = false).
Proof.
  induction s as [|c s (b & Hb & Hw & Hl)].
  - exists []. repeat split. now left.
  - simpl. destruct (trimEnd s) as [|d r] eqn:Et.
    + destruct (isWhiteSpace c) eqn:E.
      * exists (c :: b). simpl in Hb. subst s. repeat split.
        -- simpl. now rewrite E.
        -- now left.
      * exists b. simpl in Hb. subst s. repeat split; [assumption|].
        right. exact E.
    + exists b. repeat split.
      * simpl. f_equal. exact Hb.
      * assumption.
      * right. destruct Hl as [Hl|Hl]; [discriminate|]. exact Hl.
Qed.

(** [trim] keeps the middle of the string: what lies between a white prefix
    and a white suffix, with no white space at either end. *)
Lemma trim_spec (s : jsstr) :
  exists a b, s = a ++ trim s ++ b
              /\ forallb isWhiteSpace a = true
              /\ forallb isWhiteSpace b = true
              /\ (trim s = []
                  \/ (isWhiteSpace (hd 0%N (trim s)) = false
                      /\ isWhiteSpace (last (trim s) 0%N) = false)).
Proof.
  destruct (trimStart_spec s) as (a & Ha & Hwa & Hh).
  destruct (trimEnd_spec (trimStart s)) as (b & Hb & Hwb & Hl).
  exists a, b. unfold trim. repeat split; try assumption.
  - now rewrite <- Hb.
  - destruct Hl as [Hl|Hl]; [now left|right].
    split; [|exact Hl].
    destruct (trimStart s) as [|c r] eqn:Es; [reflexivity|].
    rewrite trimEnd_keeps by assumption. exact Hh.
Qed.

(** The tag that the three branches of the source push. *)
Lemma updatedTags_eq (product : Product) :
  updatedTags product =
  join (lit ", ")
    (filter (fun t => negb (startsWith (lit "stock-") t))
            (map trim (split COMMA (tags product)))
     ++ [if totalInventory product =? 0 then lit "stock-out"
         else if totalInventory product <? 10 then lit "stock-low"
         else lit "stock-available"]).
Proof.
  unfold updatedTags.
  destruct (totalInventory product =? 0); [reflexivity|].
  destruct (totalInventory product <? 10); reflexivity.
Qed.

(** The code's helpers do what the words say. *)
Lemma trimStart_drop_white (s : jsstr) : trimStart s = drop_white s.
Proof.
  induction s as [|c s IH]; [reflexivity|].
  cbn [trimStart drop_white]. now rewrite IH.
Qed.

Lemma drop_white_app (a b : jsstr) :
  drop_white (a ++ b) =
  match drop_white a with
  | [] => drop_white b
  | c :: r => (c :: r) ++ b
  end.
Proof.
  induction a as [|c a IH]; [reflexivity|].
  cbn [app drop_white]. destruct (isWhiteSpace c); [exact IH|reflexivity].
Qed.

Lemma trimEnd_rev (s : jsstr) : trimEnd s = rev (drop_white (rev s)).
Proof.
  induction s as [|c s IH]; [reflexivity|].
  cbn [trimEnd rev]. rewrite drop_white_app, IH.
  destruct (drop_white (rev s)) as [|d r].
  - cbn [rev drop_white]. now destruct (isWhiteSpace c).
  - rewrite rev_app_distr. cbn [rev app].
    destruct (rev r ++ [d]) eqn:E; [|reflexivity].
    destruct (rev r); discriminate.
Qed.

Lemma trim_strip (s : jsstr) : trim s = strip s.
Proof. unfold trim, strip. now rewrite trimEnd_rev, trimStart_drop_white. Qed.

Lemma join_sep_by (sep : jsstr) (xs : list jsstr) : join sep xs = sep_by sep xs.
Proof.
  induction xs as [|x xs IH]; [reflexivity|].
  destruct xs as [|y xs]; [cbn; now rewrite app_nil_r|].
  change (join sep (x :: y :: xs)) with (x ++ sep ++ join sep (y :: xs)).
  rewrite IH. cbn [sep_by flat_map]. now rewrite <- app_assoc.
Qed.

Lemma startsWith_firstn (prefix s : jsstr) :
  startsWith prefix s = true <-> firstn (List.length prefix) s = prefix.
Proof.
  revert s. induction prefix as [|p prefix IH]; intros s.
  - cbn. tauto.
  - destruct s as [|c s]; cbn [startsWith List.length firstn].
    + split; discriminate.
    + rewrite andb_true_iff, N.eqb_eq, IH. split.
      * intros [-> ->]. reflexivity.
      * intros H. injection H as -> H. now split.
Qed.

Lemma startsWith_begins_with (prefix s : jsstr) :
  startsWith prefix s = begins_with prefix s.
Proof.
  unfold begins_with.
  destruct (list_eq_dec N.eq_dec (firstn (List.length prefix) s) prefix) as [E|E].
  - now apply startsWith_firstn.
  - destruct (startsWith prefix s) eqn:S; [|reflexivity].
    apply startsWith_firstn in S. contradiction.
Qed.

Lemma eqb_differs (a b : jsstr) : eqb a b = negb (differs a b).
Proof.
  unfold differs. destruct (list_eq_dec N.eq_dec a b) as [E|E]; cbn [negb].
  - now apply eqb_eq.
  - now apply eqb_neq.
Qed.

(** The write-backs owed by the inventory scan are those of the products
    whose tags field differs from the computed string. *)
Lemma owed_inventory (products : list Product) :
  owed InventoryTagging products
  = map (fun p => PutProduct (id p) (SetTags (updatedTags p)))
        (filter (fun p => differs (tags p) (updatedTags p)) products).
Proof.
  induction products as [|p products IH]; [reflexivity|].
  unfold owed in *. cbn [flat_map filter]. rewrite IH.
  cbn [write_back]. rewrite eqb_differs.
  now destruct (differs (tags p) (updatedTags p)).
Qed.

Lemma owed_in (r : Routine) (products : list Product) (p : Product)
    (fields : ProductFields) :
  In p products -> write_back r p = Some fields ->
  In (PutProduct (id p) fields) (owed r products).
Proof.
  intros Hin W. unfold owed. apply in_flat_map. exists p.
  split; [exact Hin|]. rewrite W. now left.
Qed.

(** C1: the tags field is cut at its commas into pieces (the pieces, set
    in a row with commas between, are the field, and none holds a comma);
    the new tags string is those pieces, each trimmed, without the ones that
    begin with [stock-], followed by one tag, set in a row with a comma and a
    space between; the tag is [stock-out] for a sum of 0, [stock-low] for 1
    to 9 and [stock-available] from 10 on, the sum taking a missing quantity
    as 0 (a sum below 0, of which the specification says nothing, gets
    [stock-low]). An iteration of the routine sends the write-back exactly
    when the string differs from the tags field, and a run of the routine
    whose updates are all accepted sends the fetch and then the write-backs
    of exactly the products whose string differs, in order. *)
Theorem inventory_tagging_rule (env : Env) (updated : nat) (product : Product)
    (st : State) :
  let sum := inventory_sum (variants product) in
  exists pieces tag,
    pieces <> []
    /\ tags product = sep_by [COMMA] pieces
    /\ Forall (fun piece => ~ In COMMA piece) pieces
    /\ updatedTags product
       = sep_by (lit ", ")
           (filter (fun t => negb (begins_with (lit "stock-") t))
                   (map strip pieces)
            ++ [tag])
    /\ (sum = 0 -> tag = lit "stock-out")
    /\ (1 <= sum <= 9 -> tag = lit "stock-low")
    /\ (10 <= sum -> tag = lit "stock-available")
    /\ (sum < 0 -> tag = lit "stock-low")
    /\ (updatedTags product = tags product ->
        updateInventoryTags_body env updated product st = (Returned updated, st))
    /\ (updatedTags product <> tags product ->
        requests (snd (updateInventoryTags_body env updated product st))
        = requests st
          ++ [PutProduct (id product) (SetTags (updatedTags product))])
    /\ (forall products,
          unconfigured env = false ->
          remote_get env (requests st) = Returned products ->
          (forall history id fields,
             remote_put env history id fields = Returned tt) ->
          requests (snd (updateInventoryTags env st))
          = requests st ++ [GetProducts]
            ++ map (fun p => PutProduct (id p) (SetTags (updatedTags p)))
                   (filter (fun p => differs (tags p) (updatedTags p))
                           products)).
Proof.
  intros sum.
  exists (split COMMA (tags product)),
         (if totalInventory product =? 0 then lit "stock-out"
          else if totalInventory product <? 10 then lit "stock-low"
          else lit "stock-available").
  rewrite totalInventory_sum. fold sum.
  split; [apply split_not_nil|].
  split; [rewrite <- join_sep_by; symmetry; apply join_split|].
  split; [apply split_pieces|].
  split.
  { rewrite updatedTags_eq, totalInventory_sum, join_sep_by. fold sum.
    f_equal. f_equal.
    rewrite (map_ext trim strip trim_strip).
    apply filter_ext. intros t. now rewrite startsWith_begins_with. }
  split; [intros ->; reflexivity|].
  split.
  { intros H. destruct (Z.eqb_spec sum 0); [lia|].
    destruct (Z.ltb_spec sum 10); [reflexivity|lia]. }
  split.
  { intros H. destruct (Z.eqb_spec sum 0); [lia|].
    destruct (Z.ltb_spec sum 10); [lia|reflexivity]. }
  split.
  { intros H. destruct (Z.eqb_spec sum 0); [lia|].
    destruct (Z.ltb_spec sum 10); [reflexivity|lia]. }
  split.
  { intros H. apply (loop_body_skip env InventoryTagging). simpl.
    rewrite H. now rewrite (proj2 (eqb_eq (tags product) (tags product)) eq_refl). }
  split.
  { intros H. apply (loop_body_requests env InventoryTagging). simpl.
    destruct (eqb (tags product) (updatedTags product)) eqn:E; [|reflexivity].
    apply eqb_eq in E. congruence. }
  intros products U G H. rewrite <- owed_inventory.
  apply (run_healthy env InventoryTagging products st U G H).
Qed.

(** C10: a product whose tags field is the empty string keeps one empty tag:
    the split gives the one empty piece, which survives the filter, so the
    new string is a comma and a space followed by the tag of the sum
    ([, stock-out] for a sum of 0); it differs from the empty field, so an
    iteration of the routine sends the write-back, and a run of the routine
    whose updates are all accepted sends it for every such product that was
    fetched. *)
Theorem empty_tags_written_back (env : Env) (updated : nat) (product : Product)
    (st : State) :
  tags product = [] ->
  let sum := inventory_sum (variants product) in
  split COMMA (tags product) = [[]]
  /\ filter (fun t => negb (startsWith (lit "stock-") t))
            (map trim (split COMMA (tags product))) = [[]]
  /\ (exists tag,
        updatedTags product = lit ", " ++ tag
        /\ (sum = 0 -> tag = lit "stock-out")
        /\ (1 <= sum <= 9 -> tag = lit "stock-low")
        /\ (10 <= sum -> tag = lit "stock-available"))
  /\ (sum = 0 -> updatedTags product = lit ", stock-out")
  /\ updatedTags product <> tags product
  /\ requests (snd (updateInventoryTags_body env updated product st))
     = requests st ++ [PutProduct (id product) (SetTags (updatedTags product))]
  /\ (forall products,
        unconfigured env = false ->
        remote_get env (requests st) = Returned products ->
        (forall history id fields, remote_put env history id fields = Returned tt) ->
        In product products ->
        In (PutProduct (id product) (SetTags (updatedTags product)))
           (requests (snd (updateInventoryTags env st)))).
Proof.
  intros Ht sum.
  assert (Hu : updatedTags product =
               lit ", " ++
               (if sum =? 0 then lit "stock-out"
                else if sum <? 10 then lit "stock-low"
                else lit "stock-available")).
  { rewrite updatedTags_eq, Ht, totalInventory_sum. reflexivity. }
  assert (Hne : updatedTags product <> tags product).
  { rewrite Hu, Ht. discriminate. }
  assert (W : write_back InventoryTagging product
              = Some (SetTags (updatedTags product))).
  { cbn [write_back].
    destruct (eqb (tags product) (updatedTags product)) eqn:E; [|reflexivity].
    apply eqb_eq in E. congruence. }
  split; [now rewrite Ht|]. split; [now rewrite Ht|].
  split; [|split; [|split; [exact Hne|split]]].
  - eexists. split; [exact Hu|]. split; [|split].
    + intros ->. reflexivity.
    + intros H. destruct (Z.eqb_spec sum 0); [lia|].
      destruct (Z.ltb_spec sum 10); [reflexivity|lia].
    + intros H. destruct (Z.eqb_spec sum 0); [lia|].
      destruct (Z.ltb_spec sum 10); [lia|reflexivity].
  - intros H. rewrite Hu, H. reflexivity.
  - now apply (loop_body_requests env InventoryTagging).
  - intros products U G H Hin.
    destruct (run_healthy env InventoryTagging products st U G H) as [_ Hr].
    change (run InventoryTagging env st) with (updateInventoryTags env st) in Hr.
    rewrite Hr. apply in_or_app. right. apply in_or_app. right.
    now apply owed_in.
Qed.

Lemma empty_tags_written_back_witness :
  updatedTags Scenario.keyboard = lit ", stock-out"
  /\ requests (snd (updateInventoryTags_body (Scenario.healthy [Scenario.keyboard])
                      0 Scenario.keyboard initial))
     = [PutProduct 3 (SetTags (lit ", stock-out"))]
  /\ In (PutProduct 3 (SetTags (lit ", stock-out")))
        (requests (snd (updateInventoryTags
                          (Scenario.healthy [Scenario.keyboard]) initial))).
Proof.
  destruct (empty_tags_written_back (Scenario.healthy [Scenario.keyboard]) 0
              Scenario.keyboard initial eq_refl)
    as (_ & _ & _ & Hout & _ & Hreq & Hrun).
  split; [apply Hout; reflexivity|]. split.
  - rewrite Hreq, (Hout eq_refl). reflexivity.
  - rewrite <- (Hout eq_refl).
    apply (Hrun [Scenario.keyboard] eq_refl eq_refl (fun _ _ _ => eq_refl)).
    now left.
Defined.

(** A sum of 9: the earlier stock tag goes and [stock-low] comes. *)
Example tags_sum_9 : updatedTags Scenario.mouse = lit "sale, stock-low".
Proof. reflexivity. Qed.

(** A sum of 10. *)
Example tags_sum_10 :
  updatedTags (Scenario.product 4 (lit "Hub") (lit "stock-out, usb ,stock-low")
                 None (lit "") (lit "") [Some 10; None])
  = lit "usb, stock-available".
Proof. reflexivity. Qed.

(** A sum of 0, and a field that already is what the routine computes: no
    request. *)
Example tags_unchanged :
  updateInventoryTags_body (Scenario.healthy []) 0
    (Scenario.product 5 (lit "Dock") (lit "usb, stock-out") None (lit "")
       (lit "") [Some 0; Some 0]) initial
  = (Returned 0%nat, initial).
Proof. reflexivity. Qed.

End InventoryTagging.

(* ================================================================= *)
(** * The rule of the title scan *)

Section TitleRule.





End TitleRule.

(* ================================================================= *)
(** * SEO descriptions *)

Section SeoDescriptions.

Lemma qualifies_iff (product : Product) :
  qualifies product = true <->
  body_html product = None
  \/ exists description,
       body_html product = Some description /\ length description < 50.
Proof.
  unfold qualifies. destruct (body_html product) as [d|]; simpl.
  - split.
    + intros H. right. exists d. split; [reflexivity|].
      apply orb_true_iff in H as [H|H].
      * destruct d; [simpl; lia|discriminate].
      * now apply Nat.ltb_lt.
    + intros [H|(d' & H & Hlt)]; [discriminate|].
      injection H as <-. apply orb_true_iff. right. now apply Nat.ltb_lt.
  - split; [now left|reflexivity].
Qed.

(** The template writes one unit more than the specification's wording for
    each clause it leaves out. *)
Lemma seoDescription_length (product : Product) :
  length (seoDescription product) =
  length (seo_description_spec product)
  + (if truthy (product_type product) then 0 else 1)
  + (if truthy (vendor product) then 0 else 1).
Proof.
  unfold seoDescription, seo_description_spec, length.
  destruct (truthy (product_type product)), (truthy (vendor product));
    repeat rewrite length_app; simpl; lia.
Qed.

(** C2, as the code has it: the template's two separating spaces are written
    whether or not the clause before them is, so the description is the
    specification's concatenation exactly when product type and vendor are
    both non-empty. *)
Theorem seo_description_template (product : Product) :
  seoDescription product =
    lit "Shop " ++ title product ++ lit " at TechHive. "
    ++ (if truthy (product_type product)
        then lit "Category: " ++ product_type product ++ lit "." else [])
    ++ lit " "
    ++ (if truthy (vendor product)
        then lit "Brand: " ++ vendor product ++ lit "." else [])
    ++ lit " "
    ++ lit "Fast shipping and great prices!"
  /\ (seoDescription product = seo_description_spec product <->
      truthy (product_type product) = true /\ truthy (vendor product) = true)
  /\ seoDescription Scenario.acme
     = lit "Shop X at TechHive.  Brand: Acme. Fast shipping and great prices!".
Proof.
  split; [reflexivity|]. split; [|reflexivity]. split.
  - intros H. pose proof (seoDescription_length product) as L.
    rewrite H in L.
    destruct (truthy (product_type product)), (truthy (vendor product));
      first [now split | exfalso; lia].
  - intros [Ht Hv]. unfold seoDescription, seo_description_spec.
    rewrite Ht, Hv. repeat rewrite <- app_assoc. reflexivity.
Qed.

(** C2, as the specification has it, fails on its own example: with no
    product type the space after the missing Category clause is still
    written. *)
Lemma seo_description_spec_differs :
  qualifies Scenario.acme = true
  /\ option_map length (body_html Scenario.acme) = Some 49
  /\ seoDescription Scenario.acme
     <> lit "Shop X at TechHive. Brand: Acme. Fast shipping and great prices!"
  /\ seoDescription Scenario.acme <> seo_description_spec Scenario.acme.
Proof.
  repeat split; discriminate.
Qed.

(** The write-backs owed by the SEO scan are those of the qualifying
    products. *)
Lemma owed_seo (products : list Product) :
  owed SeoGeneration products
  = map (fun p => PutProduct (id p) (SetBodyHtml (seoDescription p)))
        (filter qualifies products).
Proof.
  induction products as [|p products IH]; [reflexivity|].
  unfold owed in *. cbn [flat_map filter]. rewrite IH.
  cbn [write_back]. now destruct (qualifies p).
Qed.

(** C9: a product qualifies exactly when its description is absent or
    shorter than 50 units; the loop body leaves a product that does not
    qualify untouched, and for one that qualifies it sends the write-back
    with the generated text, whatever the description was; over a run whose
    updates are all accepted, the write-backs are those of the qualifying
    products, in order. *)
Theorem seo_write_back_iff_qualifies (env : Env) (updated : nat)
    (product : Product) (st : State) :
  (qualifies product = true <->
   body_html product = None
   \/ exists description,
        body_html product = Some description /\ length description < 50)
  /\ (qualifies product = false ->
      generateSEODescriptions_body env updated product st = (Returned updated, st))
  /\ (forall description,
        body_html product = Some description -> 50 <= length description ->
        generateSEODescriptions_body env updated product st = (Returned updated, st))
  /\ (qualifies product = true ->
      requests (snd (generateSEODescriptions_body env updated product st))
      = requests st
        ++ [PutProduct (id product) (SetBodyHtml (seoDescription product))])
  /\ (forall products,
        unconfigured env = false ->
        remote_get env (requests st) = Returned products ->
        (forall history id fields, remote_put env history id fields = Returned tt) ->
        requests (snd (generateSEODescriptions env st))
        = requests st ++ [GetProducts]
          ++ map (fun p => PutProduct (id p) (SetBodyHtml (seoDescription p)))
                 (filter qualifies products)).
Proof.
  split; [apply qualifies_iff|].
  assert (Hskip : qualifies product = false ->
                  generateSEODescriptions_body env updated product st
                  = (Returned updated, st)).
  { intros H. apply (loop_body_skip env SeoGeneration). simpl. now rewrite H. }
  split; [exact Hskip|]. split.
  - intros d Hd Hlen. apply Hskip.
    destruct (qualifies product) eqn:Q; [|reflexivity].
    apply qualifies_iff in Q as [Q|(d' & Q & Hlt)]; [congruence|].
    rewrite Hd in Q. injection Q as <-. lia.
  - split.
    + intros H. apply (loop_body_requests env SeoGeneration). simpl.
      now rewrite H.
    + intros products U G H.
      rewrite <- owed_seo.
      apply (run_healthy env SeoGeneration products st U G H).
Qed.

End SeoDescriptions.

(* ================================================================= *)
(** * The activity log *)

Section ActivityLog.

Variable env : Env.

(** On a log within its capacity, an insertion puts the entry first and
    keeps the 100 newest. *)
Lemma unshift_capped_firstn (entry : ActivityLogEntry) (logs : list ActivityLogEntry) :
  List.length logs <= 100 ->
  unshift_capped entry logs = firstn 100 (entry :: logs).
Proof.
  intros H. unfold unshift_capped.
  destruct (Nat.ltb 100 (List.length (entry :: logs))) eqn:E.
  - apply Nat.ltb_lt in E. simpl in E.
    rewrite removelast_firstn_len.
    replace (Nat.pred (List.length (entry :: logs))) with 100
      by (simpl; lia).
    reflexivity.
  - apply Nat.ltb_ge in E. symmetry. now apply firstn_all2.
Qed.

Lemma firstn_app_firstn (A : Type) (n : nat) (a b : list A) :
  firstn n (a ++ firstn n b) = firstn n (a ++ b).
Proof.
  rewrite !firstn_app, firstn_firstn. f_equal. f_equal. lia.
Qed.

Lemma logActivity_log (action details : jsstr) (status : Status) (st : State) :
  automationLogs (snd (logActivity env action details status st))
  = unshift_capped (mkEntry (now env (clock_reads st)) action details status)
                   (automationLogs st).
Proof. reflexivity. Qed.

Lemma record_all_cons (action details : jsstr) (status : Status)
    (calls : list (jsstr * jsstr * Status)) (st : State) :
  record_all env ((action, details, status) :: calls) st
  = record_all env calls (snd (logActivity env action details status st)).
Proof. reflexivity. Qed.

Lemma record_all_returns (calls : list (jsstr * jsstr * Status)) (st : State) :
  fst (record_all env calls st) = Returned tt.
Proof.
  revert st. induction calls as [|[[a d] s] calls IH]; intros st; [reflexivity|].
  rewrite record_all_cons. apply IH.
Qed.

(** From a log within its capacity, a sequence of insertions leaves the 100
    newest of the new entries and the old ones, newest first. *)
Lemma record_all_log (calls : list (jsstr * jsstr * Status)) (st : State) :
  List.length (automationLogs st) <= 100 ->
  automationLogs (snd (record_all env calls st))
  = firstn 100 (rev (entries_from env (clock_reads st) calls) ++ automationLogs st).
Proof.
  revert st. induction calls as [|[[a d] s] calls IH]; intros st H.
  - change (automationLogs st = firstn 100 (automationLogs st)).
    symmetry. now apply firstn_all2.
  - rewrite record_all_cons, IH.
    + rewrite logActivity_log, unshift_capped_firstn by assumption.
      rewrite firstn_app_firstn.
      change (clock_reads (snd (logActivity env a d s st)))
        with (S (clock_reads st)).
      cbn [entries_from rev]. now rewrite <- app_assoc.
    + rewrite logActivity_log, unshift_capped_firstn by assumption.
      rewrite length_firstn. lia.
Qed.

Lemma entries_from_length (n : nat) (calls : list (jsstr * jsstr * Status)) :
  List.length (entries_from env n calls) = List.length calls.
Proof.
  revert n. induction calls as [|[[a d] s] calls IH]; intros n; simpl;
    [reflexivity|now rewrite IH].
Qed.

End ActivityLog.

(** C5: whatever the sequence of insertions into the empty log, the log is
    the 100 newest entries, newest first, so it never holds more than 100;
    each insertion into a log within its capacity keeps it within it; and
    after 101 insertions the log is the last 100 entries inserted, newest
    first, without the first one. *)
Theorem activity_log_capped (env : Env) (calls : list (jsstr * jsstr * Status)) :
  let st := snd (record_all env calls initial) in
  let inserted := entries_from env 0 calls in
  fst (record_all env calls initial) = Returned tt
  /\ automationLogs st = firstn 100 (rev inserted)
  /\ List.length (automationLogs st) <= 100
  /\ (forall st0 action details status,
        List.length (automationLogs st0) <= 100 ->
        automationLogs (snd (logActivity env action details status st0))
        = firstn 100 (mkEntry (now env (clock_reads st0)) action details status
                        :: automationLogs st0)
        /\ List.length (automationLogs (snd (logActivity env action details status st0)))
           <= 100)
  /\ (List.length calls = 101 ->
      automationLogs st = rev (tl inserted)
      /\ List.length (automationLogs st) = 100).
Proof.
  intros st inserted.
  assert (Hlog : automationLogs st = firstn 100 (rev inserted)).
  { unfold st. rewrite record_all_log by (cbn; lia).
    change (automationLogs initial) with (@nil ActivityLogEntry).
    now rewrite app_nil_r. }
  split; [apply record_all_returns|]. split; [exact Hlog|]. split.
  - rewrite Hlog, length_firstn. lia.
  - split.
    + intros st0 a d s H. rewrite logActivity_log.
      rewrite unshift_capped_firstn by assumption.
      split; [reflexivity|]. rewrite length_firstn. lia.
    + intros H.
      assert (Hlen : List.length inserted = 101).
      { unfold inserted. now rewrite entries_from_length. }
      assert (Hrev : firstn 100 (rev inserted) = rev (tl inserted)).
      { destruct inserted as [|e es]; [discriminate|].
        cbn [List.length] in Hlen. cbn [rev tl].
        rewrite firstn_app.
        replace (100 - List.length (rev es)) with 0
          by (rewrite length_rev; lia).
        rewrite firstn_O, app_nil_r. apply firstn_all2.
        rewrite length_rev. lia. }
      rewrite Hlog, Hrev. split; [reflexivity|].
      rewrite length_rev. destruct inserted; cbn [List.length tl] in *; lia.
Qed.

(** 101 insertions: the entry stamped 0 is gone, and the log runs from the
    entry stamped 100 down to the one stamped 1. *)
Example log_after_101 :
  map timestamp
      (automationLogs
         (snd (record_all Scenario.ticking
                 (repeat (lit "scheduled_task", lit "Running", success) 101)
                 initial)))
  = map (fun n => show (N.of_nat n)) (rev (seq 1 100)).
Proof. vm_compute. reflexivity. Qed.

(* ================================================================= *)
(** * Missing configuration *)

(** C7: with the store identifier or the access token absent, each
    automation routine returns at once and changes nothing (no request, no
    log entry), and [GET /api/products] answers 200 with the explanatory
    message and no products, without a request and without an error. *)
Theorem missing_configuration_short_circuits (env : Env) (st : State) :
  SHOPIFY_STORE env = None \/ SHOPIFY_ACCESS_TOKEN env = None ->
  optimizeTitles env st = (Returned tt, st)
  /\ updateInventoryTags env st = (Returned tt, st)
  /\ generateSEODescriptions env st = (Returned tt, st)
  /\ get_api_products env st
     = (Returned
          (mkResponse 200
             (ProductsBody
                (Some (lit "Shopify not configured. Set SHOPIFY_STORE and SHOPIFY_ACCESS_TOKEN env vars."))
                [])),
        st).
Proof.
  intros H.
  assert (U : unconfigured env = true).
  { unfold unconfigured. destruct H as [-> | ->]; simpl;
      [reflexivity|apply orb_true_r]. }
  split; [exact (run_unconfigured env TitleOptimization st U)|].
  split; [exact (run_unconfigured env InventoryTagging st U)|].
  split; [exact (run_unconfigured env SeoGeneration st U)|].
  unfold get_api_products, try_catch. now rewrite U.
Qed.

Lemma missing_configuration_witness :
  optimizeTitles Scenario.no_store initial = (Returned tt, initial)
  /\ requests (snd (get_api_products Scenario.no_store initial)) = [].
Proof.
  destruct (@missing_configuration_short_circuits Scenario.no_store initial
              (or_introl eq_refl)) as (Ht & _ & _ & Hg).
  split; [exact Ht|]. now rewrite Hg.
Defined.

(* ================================================================= *)
(** * Bulk edit *)

Section BulkEdit.

Variable env : Env.
Variable updates : option jsstr.

(** One id: the request is sent, and whatever the answer the iteration
    returns with one more entry. *)
Lemma bulk_edit_body_eq (results : list BulkEditResult) (id : N) (st : State) :
  exists st',
    bulk_edit_body env updates results id st
    = (Returned (results ++ expected_results env updates (requests st) [id]), st')
    /\ requests st' = requests st ++ [PutProduct id (Updates updates)].
Proof.
  unfold bulk_edit_body, try_catch, bind, shopifyAPI_put. cbn [expected_results].
  destruct (remote_put env (requests st) id (Updates updates)) as [[]|message];
    eexists; split; reflexivity.
Qed.

Lemma bulk_edit_loop (ids : list N) (results : list BulkEditResult) (st : State) :
  exists st',
    for_of ids (bulk_edit_body env updates) results st
    = (Returned (results ++ expected_results env updates (requests st) ids), st')
    /\ requests st'
       = requests st ++ map (fun id => PutProduct id (Updates updates)) ids.
Proof.
  revert results st. induction ids as [|id ids IH]; intros results st.
  - exists st. cbn. now rewrite !app_nil_r.
  - destruct (bulk_edit_body_eq results id st) as (st1 & Hb & Hr1).
    destruct (IH (results ++ expected_results env updates (requests st) [id]) st1)
      as (st' & Hl & Hr).
    exists st'. split.
    + cbn [for_of]. unfold bind. rewrite Hb, Hl, Hr1.
      cbn [expected_results]. now rewrite <- app_assoc.
    + rewrite Hr, Hr1. cbn [map]. now rewrite <- app_assoc.
Qed.

Lemma expected_results_ids (history : list Request) (ids : list N) :
  map result_id (expected_results env updates history ids) = ids.
Proof.
  revert history. induction ids as [|id ids IH]; intros history; [reflexivity|].
  cbn [expected_results map]. rewrite IH.
  now destruct (remote_put env history id (Updates updates)).
Qed.

Lemma expected_results_errors (history : list Request) (ids : list N) :
  (forall history id fields message,
     remote_put env history id fields = Thrown message -> message <> []) ->
  Forall (fun r => match result_status r with
                   | success => result_error r = None
                   | error => exists message,
                       result_error r = Some message /\ message <> []
                   end)
         (expected_results env updates history ids).
Proof.
  intros H. revert history. induction ids as [|id ids IH]; intros history.
  - constructor.
  - cbn [expected_results]. constructor; [|apply IH].
    destruct (remote_put env history id (Updates updates)) as [[]|message] eqn:E.
    + reflexivity.
    + exists message. split; [reflexivity|]. eapply H. exact E.
Qed.

End BulkEdit.

Lemma expected_results_shape (env : Env) (updates : option jsstr)
    (history : list Request) (ids : list N) :
  Forall (fun r => match result_status r with
                   | success => result_error r = None
                   | error => exists message, result_error r = Some message
                   end)
         (expected_results env updates history ids).
Proof.
  revert history. induction ids as [|id ids IH]; intros history.
  - constructor.
  - cbn [expected_results]. constructor; [|apply IH].
    destruct (remote_put env history id (Updates updates)) as [[]|message];
      [reflexivity|now exists message].
Qed.

(** C6, as the code has it: every id of a bulk edit is attempted, in
    order, whatever the answers to the ids before it; the handler answers
    200 with one result per id, in order, each a success (with no error
    field) when its own request succeeded and otherwise an error whose
    message is the message of the failed call, copied as it is; [total] is
    the number of ids and [successful] the number of success entries. The
    message of a failing entry is therefore non-empty exactly when the
    message of the error is. *)
Theorem bulk_edit_isolates_failures (env : Env) (ids : list N)
    (updates : option jsstr) (st : State) :
  exists results st',
    post_api_bulk_edit env (Some ids) updates st
    = (Returned
         (mkResponse 200
            (BulkEditBody results (List.length ids)
               (List.length
                  (filter (fun r => match result_status r with
                                    | success => true
                                    | error => false
                                    end) results)))),
       st')
    /\ results = expected_results env updates (requests st) ids
    /\ requests st'
       = requests st ++ map (fun id => PutProduct id (Updates updates)) ids
    /\ map result_id results = ids
    /\ List.length results = List.length ids
    /\ Forall (fun r => match result_status r with
                        | success => result_error r = None
                        | error => exists message, result_error r = Some message
                        end) results
    /\ ((forall history id fields message,
           remote_put env history id fields = Thrown message -> message <> []) ->
        Forall (fun r => result_status r = error ->
                         exists message,
                           result_error r = Some message /\ message <> [])
               results).
Proof.
  destruct (bulk_edit_loop env updates ids [] st) as (st' & Hl & Hr).
  exists (expected_results env updates (requests st) ids), st'.
  split; [|split; [reflexivity|split; [exact Hr|split; [|split; [|split]]]]].
  - unfold post_api_bulk_edit, bind. rewrite Hl. reflexivity.
  - apply expected_results_ids.
  - rewrite <- (length_map result_id), expected_results_ids. reflexivity.
  - apply expected_results_shape.
  - intros H.
    eapply Forall_impl;
      [|exact (expected_results_errors env updates (requests st) ids H)].
    intros r Hr' E. cbn beta in Hr'. rewrite E in Hr'. exact Hr'.
Qed.

Lemma bulk_edit_second_of_three_fails :
  exists st',
    post_api_bulk_edit Scenario.second_fails (Some [101; 102; 103]%N) None initial
    = (Returned
         (mkResponse 200
            (BulkEditBody
               [mkResult 101 success None;
                mkResult 102 error (Some Scenario.request_failed);
                mkResult 103 success None] 3 2)),
       st')
    /\ requests st'
       = [PutProduct 101 (Updates None); PutProduct 102 (Updates None);
          PutProduct 103 (Updates None)].
Proof.
  destruct (bulk_edit_isolates_failures Scenario.second_fails
              [101; 102; 103]%N None initial)
    as (results & st' & Hrun & Hres & Hreq & _).
  exists st'. subst results. split; [exact Hrun|exact Hreq].
Defined.

(** C6, as the specification has it, fails in one clause: the handler
    copies the message of the error without looking at it, so a failing
    entry carries an empty message when the error does. *)
Lemma bulk_edit_message_may_be_empty :
  results_of (post_api_bulk_edit Client.silent (Some [7%N]) None initial)
  = [mkResult 7 error (Some [])]
  /\ ~ (forall env ids updates st,
          Forall (fun r => result_status r = error ->
                           exists message,
                             result_error r = Some message /\ message <> [])
                 (results_of (post_api_bulk_edit env (Some ids) updates st))).
Proof.
  split; [reflexivity|]. intros H.
  specialize (H Client.silent [7%N] None initial).
  change (results_of (post_api_bulk_edit Client.silent (Some [7%N]) None initial))
    with [mkResult 7 error (Some [])] in H.
  inversion H as [|? ? Hr _]; subst.
  destruct (Hr eq_refl) as (message & E & Hne).
  cbn in E. injection E as <-. now apply Hne.
Qed.

(** A request body without [productIds] is a bulk edit of no product. *)
Lemma bulk_edit_without_ids (env : Env) (updates : option jsstr) (st : State) :
  post_api_bulk_edit env None updates st
  = (Returned (mkResponse 200 (BulkEditBody [] 0 0)), st).
Proof. reflexivity. Qed.

(* ================================================================= *)
(** * A failure inside a scan *)


(** C4, as the code has it: in a scan, the first write-back that fails ends
    the routine. The routine returns normally; the requests it has sent are
    the fetch, the write-backs owed to the products before the failing one
    and the failing request, and none for the products after it (whatever
    they are owed); and one error entry, under the routine's own action and
    with the message of the failure, goes to the front of the log. *)
Theorem scan_failure_aborts (r : Routine) (env : Env) (st : State)
    (pre post : list Product) (p : Product) (fields : ProductFields)
    (count : nat) (st1 : State) (message : jsstr) :
  unconfigured env = false ->
  remote_get env (requests st) = Returned (pre ++ p :: post) ->
  for_of pre (loop_body r env) 0 (snd (shopifyAPI_get env st)) = (Returned count, st1) ->
  write_back r p = Some fields ->
  remote_put env (requests st1) (id p) fields = Thrown message ->
  exists st2,
    run r env st = (Returned tt, st2)
    /\ requests st2
       = requests st ++ [GetProducts] ++ owed r pre ++ [PutProduct (id p) fields]
    /\ automationLogs st2
       = unshift_capped
           (mkEntry (now env (clock_reads st1)) (error_action r) message error)
           (automationLogs st1).
Proof.
  intros U G Hpre W F.
  exists (snd (logActivity env (error_action r) message error
                 (mkState (automationLogs st1) (console st1)
                    (requests st1 ++ [PutProduct (id p) fields])
                    (clock_reads st1)))).
  split; [|split].
  - rewrite (run_aborts env r st pre post p fields count st1 message U G Hpre W F).
    reflexivity.
  - change (requests st1 ++ [PutProduct (id p) fields]
            = requests st ++ [GetProducts] ++ owed r pre
              ++ [PutProduct (id p) fields]).
    apply for_of_returned in Hpre.
    change (requests (snd (shopifyAPI_get env st)))
      with (requests st ++ [GetProducts]) in Hpre.
    rewrite Hpre. now rewrite <- !app_assoc.
  - reflexivity.
Qed.

Lemma scan_failure_aborts_witness :
  exists st2,
    optimizeTitles (Scenario.read_only [Scenario.mouse; Scenario.keyboard]) initial
    = (Returned tt, st2)
    /\ requests st2
       = [GetProducts; PutProduct 2 (SetTitle (lit "Wireless Mouse"))]
    /\ automationLogs st2
       = [mkEntry (Scenario.clock 0) (lit "title_optimization")
            Scenario.request_failed error].
Proof.
  exact (@scan_failure_aborts TitleOptimization
           (Scenario.read_only [Scenario.mouse; Scenario.keyboard]) initial
           [] [Scenario.keyboard] Scenario.mouse
           (SetTitle (lit "Wireless Mouse")) 0
           (snd (shopifyAPI_get
                   (Scenario.read_only [Scenario.mouse; Scenario.keyboard])
                   initial))
           Scenario.request_failed
           eq_refl eq_refl eq_refl eq_refl eq_refl).
Defined.

(** C4, as the specification has it, fails for each of the three scans: when
    the catalogue refuses the update of the first product, the second, which
    is owed a write-back too, is never sent one. *)
Lemma scan_failure_not_isolated :
  ~ failure_isolated TitleOptimization
  /\ ~ failure_isolated InventoryTagging
  /\ ~ failure_isolated SeoGeneration.
Proof.
  repeat split; intros H.
  - specialize (H (Scenario.read_only [Scenario.mouse; Scenario.keyboard]) initial
                  [Scenario.mouse; Scenario.keyboard] Scenario.keyboard
                  (SetTitle (lit "Usb Keyboard"))
                  eq_refl eq_refl (or_intror (or_introl eq_refl)) eq_refl).
    vm_compute in H. destruct H as [H|[H|[]]]; discriminate H.
  - specialize (H (Scenario.read_only [Scenario.mouse; Scenario.keyboard]) initial
                  [Scenario.mouse; Scenario.keyboard] Scenario.keyboard
                  (SetTags (lit ", stock-out"))
                  eq_refl eq_refl (or_intror (or_introl eq_refl)) eq_refl).
    vm_compute in H. destruct H as [H|[H|[]]]; discriminate H.
  - specialize (H (Scenario.read_only [Scenario.mouse; Scenario.keyboard]) initial
                  [Scenario.mouse; Scenario.keyboard] Scenario.keyboard
                  (SetBodyHtml (seoDescription Scenario.keyboard))
                  eq_refl eq_refl (or_intror (or_introl eq_refl)) eq_refl).
    vm_compute in H. destruct H as [H|[H|[]]]; discriminate H.
Qed.

(* ================================================================= *)
(** * A scan run again *)

Section ScanAgain.

Local Open Scope N_scope.

Lemma trimEnd_fixed (s : jsstr) :
  s <> [] -> isWhiteSpace (last s 0) = false -> trimEnd s = s.
Proof.
  induction s as [|c s IH]; intros Hn Hl; [contradiction|].
  destruct s as [|d s].
  - simpl in *. now rewrite Hl.
  - change (last (c :: d :: s) 0) with (last (d :: s) 0) in Hl.
    cbn [trimEnd]. change (trimEnd (d :: s)) with (trimEnd (d :: s)).
    assert (E : trimEnd (d :: s) = d :: s) by (apply IH; [discriminate|exact Hl]).
    cbn [trimEnd] in E. rewrite E. reflexivity.
Qed.

(** Trimming a trimmed string changes nothing. *)
Lemma trim_idempotent (s : jsstr) : trim (trim s) = trim s.
Proof.
  destruct (trim_spec s) as (a & b & _ & _ & _ & [H|[Hh Hl]]).
  - now rewrite H.
  - destruct (trim s) as [|c t] eqn:E; [reflexivity|].
    unfold trim at 1. cbn [hd] in Hh. cbn [trimStart]. rewrite Hh.
    apply trimEnd_fixed; [discriminate|exact Hl].
Qed.

Lemma trim_space (s : jsstr) : trim (SPACE :: s) = trim s.
Proof. reflexivity. Qed.

(** What [trim] keeps was in the string. *)
Lemma trim_incl (s : jsstr) (c : N) : In c (trim s) -> In c s.
Proof.
  destruct (trim_spec s) as (a & b & Hs & _).
  intros H. rewrite Hs. apply in_or_app. right. apply in_or_app. now left.
Qed.

Lemma split_space_cons (s : jsstr) (piece : jsstr) (pieces : list jsstr) :
  split COMMA s = piece :: pieces ->
  split COMMA (SPACE :: s) = (SPACE :: piece) :: pieces.
Proof. intros H. cbn [split]. rewrite H. reflexivity. Qed.

(** Splitting on commas what was joined with a comma and a space gives the
    pieces back, each but the first behind its space. *)
Lemma split_join_comma_space (piece : jsstr) (pieces : list jsstr) :
  Forall (fun t => ~ In COMMA t) (piece :: pieces) ->
  split COMMA (join [COMMA; SPACE] (piece :: pieces))
  = piece :: map (cons SPACE) pieces.
Proof.
  revert piece. induction pieces as [|q pieces IH]; intros piece H.
  - inversion H; subst. cbn [join map]. now apply split_free.
  - inversion H as [|? ? Hp Hq]; subst.
    change (join [COMMA; SPACE] (piece :: q :: pieces))
      with (piece ++ COMMA :: SPACE :: join [COMMA; SPACE] (q :: pieces)).
    rewrite split_app_sep by assumption.
    rewrite (split_space_cons _ _ _ (IH q Hq)). reflexivity.
Qed.

Lemma map_trim_spaced (piece : jsstr) (pieces : list jsstr) :
  Forall (fun t => trim t = t) (piece :: pieces) ->
  map trim (piece :: map (cons SPACE) pieces) = piece :: pieces.
Proof.
  intros H. inversion H as [|? ? Hp Hq]; subst. cbn [map]. rewrite Hp. f_equal.
  induction Hq as [|q pieces Hq _ IH]; [reflexivity|].
  cbn [map]. rewrite trim_space, Hq. f_equal. apply IH.
  constructor; [assumption|]. now inversion H as [|? ? _ H']; inversion H'.
Qed.

Lemma kept_tags_shape (product : Product) :
  Forall (fun t => ~ In COMMA t /\ trim t = t
                   /\ startsWith (lit "stock-") t = false)
         (kept_tags product).
Proof.
  apply Forall_forall. intros t Ht. unfold kept_tags in Ht.
  apply filter_In in Ht as [Ht Hs]. apply in_map_iff in Ht as (piece & <- & Hp).
  pose proof (split_pieces COMMA (tags product)) as Hf.
  rewrite Forall_forall in Hf. repeat split.
  - intros Hin. apply (Hf piece Hp). now apply trim_incl.
  - apply trim_idempotent.
  - now apply negb_true_iff in Hs.
Qed.

Lemma filter_kept (kept : list jsstr) (tag : jsstr) :
  Forall (fun t => startsWith (lit "stock-") t = false) kept ->
  startsWith (lit "stock-") tag = true ->
  filter (fun t => negb (startsWith (lit "stock-") t)) (kept ++ [tag]) = kept.
Proof.
  intros Hk Ht. rewrite filter_app. cbn [filter]. rewrite Ht. cbn [negb].
  rewrite app_nil_r. induction Hk as [|t kept H _ IH]; [reflexivity|].
  cbn [filter]. rewrite H. cbn [negb]. now rewrite IH.
Qed.

(** The tags that survive a rewrite of the tags field are the tags that
    were kept: re-reading the string that the scan wrote loses and adds
    nothing. *)
Lemma kept_tags_rewritten (product : Product) (tag : jsstr) :
  ~ In COMMA tag -> trim tag = tag -> startsWith (lit "stock-") tag = true ->
  kept_tags (with_tags product (join (lit ", ") (kept_tags product ++ [tag])))
  = kept_tags product.
Proof.
  intros Hc Ht Hs.
  pose proof (kept_tags_shape product) as Hk.
  unfold kept_tags at 1. cbn [tags with_tags].
  change (lit ", ") with [COMMA; SPACE].
  assert (Hall : Forall (fun t => ~ In COMMA t /\ trim t = t)
                        (kept_tags product ++ [tag])).
  { apply Forall_app. split.
    - eapply Forall_impl; [|exact Hk]. now intros t (H1 & H2 & _).
    - constructor; [now split|constructor]. }
  destruct (kept_tags product ++ [tag]) as [|piece pieces] eqn:E.
  { destruct (kept_tags product); discriminate. }
  rewrite split_join_comma_space
    by (eapply Forall_impl; [|exact Hall]; now intros t [H _]).
  rewrite map_trim_spaced
    by (eapply Forall_impl; [|exact Hall]; now intros t [_ H]).
  rewrite <- E. apply filter_kept; [|assumption].
  eapply Forall_impl; [|exact Hk]. now intros t (_ & _ & H).
Qed.

End ScanAgain.

(** X1: the inventory scan reaches a fixed point in one step. Once the
    string it computed is the product's tags field (and the quantities are
    as they were), the scan keeps the same tags, computes the same string and
    sends no second write-back. *)
Theorem inventory_tags_fixed_point (env : Env) (updated : nat) (product : Product)
    (st : State) :
  let written := with_tags product (updatedTags product) in
  kept_tags written = kept_tags product
  /\ updatedTags written = updatedTags product
  /\ updateInventoryTags_body env updated written st = (Returned updated, st).
Proof.
  intros written.
  assert (Hk : kept_tags written = kept_tags product).
  { unfold written. rewrite updatedTags_eq. fold (kept_tags product).
    destruct (totalInventory product =? 0)%Z;
      [|destruct (totalInventory product <? 10)%Z];
      (apply kept_tags_rewritten;
       [intros Hin; vm_compute in Hin; intuition discriminate
       |reflexivity|reflexivity]). }
  assert (Hu : updatedTags written = updatedTags product).
  { rewrite (updatedTags_eq written), (updatedTags_eq product).
    fold (kept_tags written). fold (kept_tags product). rewrite Hk.
    reflexivity. }
  split; [exact Hk|]. split; [exact Hu|].
  apply (loop_body_skip env InventoryTagging). cbn [write_back].
  rewrite Hu. change (tags written) with (updatedTags product).
  now rewrite (proj2 (eqb_eq (updatedTags product) (updatedTags product)) eq_refl).
Qed.

(** X2: the SEO scan never regenerates a description of its own. The
    generated text is longer than 50 units whatever the product, so a
    product that carries it no longer qualifies and is left untouched. *)
Theorem seo_description_not_regenerated (env : Env) (updated : nat)
    (product : Product) (st : State) :
  let written := with_body_html product (seoDescription product) in
  52 <= length (seoDescription product)
  /\ qualifies written = false
  /\ generateSEODescriptions_body env updated written st = (Returned updated, st).
Proof.
  intros written.
  assert (Hl : 52 <= length (seoDescription product)).
  { unfold seoDescription, length. repeat rewrite length_app.
    change (List.length (lit "Shop ")) with 5.
    change (List.length (lit " at TechHive. ")) with 14.
    change (List.length (lit " ")) with 1.
    change (List.length (lit " Fast shipping and great prices!")) with 32.
    lia. }
  assert (Hq : qualifies written = false).
  { unfold qualifies, written. cbn [body_html with_body_html falsy].
    destruct (seoDescription product) as [|c d] eqn:E; [simpl in Hl; lia|].
    cbn [truthy negb orb]. apply Nat.ltb_ge. lia. }
  split; [exact Hl|]. split; [exact Hq|].
  apply (loop_body_skip env SeoGeneration). cbn [write_back]. now rewrite Hq.
Qed.




(** X4: an optimised title is in normal form: collapsing its white space
    and trimming it changes nothing (no white space at either end, none but
    single spaces inside), and it has as many words as the title had. Stated
    for titles of Latin-1 characters, where the case tables are exact. *)
Theorem optimized_title_normalised (t : jsstr) :
  forallb (fun c => (c <=? 0xFF)%N) t = true ->
  trim (replace_ws (optimizedTitle t)) = optimizedTitle t
  /\ List.length (words (optimizedTitle t)) = List.length (words t).
Proof.
  intros _. split.
  - rewrite normalise_words, words_optimizedTitle.
    symmetry. apply optimizedTitle_words.
  - now rewrite words_optimizedTitle, length_map.
Qed.

Lemma optimized_title_normalised_witness :
  trim (replace_ws (optimizedTitle (lit "  wireLESS   mouse ")))
  = optimizedTitle (lit "  wireLESS   mouse ").
Proof.
  apply (optimized_title_normalised (lit "  wireLESS   mouse ")).
  reflexivity.
Defined.

(* ================================================================= *)
(** * What every operation keeps *)

Section Keeping.

Variable P : State -> Prop.

Lemma keeps_ret (A : Type) (a : A) : keeps P (ret a).
Proof. intros st H. exact H. Qed.

Lemma keeps_bind (A B : Type) (m : M A) (k : A -> M B) :
  keeps P m -> (forall a, keeps P (k a)) -> keeps P (bind m k).
Proof.
  intros Hm Hk st H. unfold bind. specialize (Hm st H).
  destruct (m st) as [[a|message] st']; cbn [snd] in *;
    [now apply Hk|exact Hm].
Qed.

Lemma keeps_try_catch (A : Type) (body : M A) (handler : jsstr -> M A) :
  keeps P body -> (forall message, keeps P (handler message)) ->
  keeps P (try_catch body handler).
Proof.
  intros Hb Hh st H. unfold try_catch. specialize (Hb st H).
  destruct (body st) as [[a|message] st']; cbn [snd] in *;
    [exact Hb|now apply Hh].
Qed.

Lemma keeps_for_of (A B : Type) (xs : list A) (body : B -> A -> M B) (acc : B) :
  (forall acc x, keeps P (body acc x)) -> keeps P (for_of xs body acc).
Proof.
  intros Hb. revert acc. induction xs as [|x xs IH]; intros acc.
  - apply keeps_ret.
  - cbn [for_of]. apply keeps_bind; [apply Hb|intros acc'; apply IH].
Qed.

End Keeping.

Section Capacity.

Variable env : Env.

Lemma unshift_capped_within (entry : ActivityLogEntry) (logs : list ActivityLogEntry) :
  List.length logs <= 100 -> List.length (unshift_capped entry logs) <= 100.
Proof.
  intros H. rewrite unshift_capped_firstn by assumption.
  rewrite length_firstn. lia.
Qed.

(** Whatever the log holds, the entry just inserted is its first. *)
Lemma unshift_capped_head (entry : ActivityLogEntry) (logs : list ActivityLogEntry) :
  hd_error (unshift_capped entry logs) = Some entry.
Proof.
  unfold unshift_capped.
  destruct (Nat.ltb 100 (List.length (entry :: logs))) eqn:E; [|reflexivity].
  destruct logs as [|e logs]; [discriminate|reflexivity].
Qed.

Lemma keeps_logActivity (action details : jsstr) (status : Status) :
  keeps within_capacity (logActivity env action details status).
Proof. intros st H. now apply unshift_capped_within. Qed.

Lemma keeps_get : keeps within_capacity (shopifyAPI_get env).
Proof. intros st H. exact H. Qed.

Lemma keeps_put (id : N) (fields : ProductFields) :
  keeps within_capacity (shopifyAPI_put env id fields).
Proof. intros st H. exact H. Qed.

Ltac keep :=
  repeat first
    [ apply keeps_logActivity
    | apply keeps_get
    | apply keeps_put
    | apply keeps_ret
    | apply keeps_bind; [|intros ?]
    | apply keeps_try_catch; [|intros ?]
    | apply keeps_for_of; intros ? ? ].

Lemma keeps_loop_body (r : Routine) (count : nat) (product : Product) :
  keeps within_capacity (loop_body r env count product).
Proof.
  rewrite loop_body_eq. destruct (write_back r product); keep.
Qed.

Lemma keeps_run (r : Routine) : keeps within_capacity (run r env).
Proof.
  destruct (unconfigured env) eqn:U.
  - intros st H. now rewrite run_unconfigured.
  - rewrite run_eq by assumption. keep. apply keeps_loop_body.
Qed.

Lemma keeps_scheduled (r : Routine) : keeps within_capacity (scheduled r env).
Proof.
  destruct r; unfold scheduled; keep;
    [apply (keeps_run TitleOptimization)|apply (keeps_run InventoryTagging)
    |apply (keeps_run SeoGeneration)].
Qed.

Lemma keeps_get_api_products : keeps within_capacity (get_api_products env).
Proof.
  unfold get_api_products. destruct (unconfigured env); keep.
Qed.

Lemma keeps_bulk_edit (productIds : option (list N)) (updates : option jsstr) :
  keeps within_capacity (post_api_bulk_edit env productIds updates).
Proof.
  unfold post_api_bulk_edit. keep.
Qed.

End Capacity.

(** X9: the capacity of the log is an invariant of the server. From a
    state whose log holds at most 100 entries, every operation (each
    routine, each scheduled run, the product listing, a bulk edit, the
    health check) ends in such a state, whatever the catalogue answers. *)
Theorem log_capacity_invariant (env : Env) (st : State) :
  within_capacity st ->
  (forall r, within_capacity (snd (run r env st)))
  /\ (forall r, within_capacity (snd (scheduled r env st)))
  /\ within_capacity (snd (get_api_products env st))
  /\ (forall productIds updates,
        within_capacity (snd (post_api_bulk_edit env productIds updates st)))
  /\ within_capacity (snd (get_health env st)).
Proof.
  intros H. repeat split.
  - intros r. now apply keeps_run.
  - intros r. now apply keeps_scheduled.
  - now apply keeps_get_api_products.
  - intros ids updates. now apply keeps_bulk_edit.
  - exact H.
Qed.

Lemma log_capacity_invariant_witness :
  within_capacity
    (snd (run TitleOptimization
            (Scenario.healthy [Scenario.mouse; Scenario.keyboard]) initial)).
Proof.
  apply (log_capacity_invariant
           (Scenario.healthy [Scenario.mouse; Scenario.keyboard]) initial).
  unfold within_capacity. cbn. lia.
Defined.

(* ================================================================= *)
(** * How a run ends *)

Section RunEnds.

Variable env : Env.
Variable r : Routine.

(** The three ways a configured routine ends. *)
Lemma run_fetch_failed (st : State) (message : jsstr) :
  unconfigured env = false ->
  remote_get env (requests st) = Thrown message ->
  run r env st
  = logActivity env (error_action r) message error (snd (shopifyAPI_get env st)).
Proof.
  intros U G. rewrite run_eq by assumption.
  unfold try_catch, bind, shopifyAPI_get. rewrite G. reflexivity.
Qed.

Lemma run_completed (st : State) (products : list Product) (count : nat)
    (st1 : State) :
  unconfigured env = false ->
  remote_get env (requests st) = Returned products ->
  for_of products (loop_body r env) 0 (snd (shopifyAPI_get env st))
  = (Returned count, st1) ->
  run r env st
  = logActivity env (summary_action r) (summary_details r count) success st1.
Proof.
  intros U G Hf. rewrite run_eq by assumption.
  unfold try_catch, bind. unfold shopifyAPI_get in Hf |- *. rewrite G.
  cbn [snd] in Hf. cbn beta iota. rewrite Hf. reflexivity.
Qed.

Lemma run_scan_failed (st : State) (products : list Product) (message : jsstr)
    (st1 : State) :
  unconfigured env = false ->
  remote_get env (requests st) = Returned products ->
  for_of products (loop_body r env) 0 (snd (shopifyAPI_get env st))
  = (Thrown message, st1) ->
  run r env st = logActivity env (error_action r) message error st1.
Proof.
  intros U G Hf. rewrite run_eq by assumption.
  unfold try_catch, bind. unfold shopifyAPI_get in Hf |- *. rewrite G.
  cbn [snd] in Hf. cbn beta iota. rewrite Hf. reflexivity.
Qed.

(** A scan that returns has counted the write-backs it sent. *)
Lemma for_of_returned_count (products : list Product) (count count' : nat)
    (st st' : State) :
  for_of products (loop_body r env) count st = (Returned count', st') ->
  count' = count + List.length (owed r products).
Proof.
  revert count st. induction products as [|p products IH]; intros count st H.
  - cbn in H. injection H as <- _. cbn. lia.
  - cbn [for_of] in H. unfold bind in H.
    destruct (loop_body r env count p st) as [[count1|message] st1] eqn:Hb;
      [|discriminate].
    apply IH in H. rewrite H.
    unfold owed. cbn [flat_map]. fold (owed r products). rewrite length_app.
    rewrite loop_body_eq in Hb. destruct (write_back r p) as [fields|].
    + unfold bind, shopifyAPI_put, logActivity, ret in Hb.
      destruct (remote_put env (requests st) (id p) fields) as [[]|message];
        [|discriminate].
      injection Hb as <- _. cbn [List.length]. lia.
    + injection Hb as <- _. cbn [List.length]. lia.
Qed.

(** A scan only adds requests, whatever its outcome. *)
Lemma for_of_extends (products : list Product) (count : nat) (st : State) :
  exists sent,
    requests (snd (for_of products (loop_body r env) count st))
    = requests st ++ sent.
Proof.
  revert count st. induction products as [|p products IH]; intros count st.
  - exists []. cbn. now rewrite app_nil_r.
  - cbn [for_of]. unfold bind at 1. rewrite loop_body_eq.
    destruct (write_back r p) as [fields|].
    + unfold bind, shopifyAPI_put, logActivity, ret.
      destruct (remote_put env (requests st) (id p) fields) as [[]|message].
      * match goal with
        | |- context [for_of products _ ?c ?s] =>
            destruct (IH c s) as (sent & Hs)
        end.
        exists (PutProduct (id p) fields :: sent).
        rewrite Hs. cbn [requests]. now rewrite <- app_assoc.
      * exists [PutProduct (id p) fields]. reflexivity.
    + unfold ret. apply IH.
Qed.

(** A configured routine sends the fetch first, and only adds requests. *)
Lemma run_extends (st : State) :
  unconfigured env = false ->
  exists sent,
    requests (snd (run r env st)) = requests st ++ GetProducts :: sent.
Proof.
  intros U.
  destruct (remote_get env (requests st)) as [products|message] eqn:G.
  - destruct (for_of_extends products 0 (snd (shopifyAPI_get env st)))
      as (sent & Hs).
    exists sent.
    destruct (for_of products (loop_body r env) 0 (snd (shopifyAPI_get env st)))
      as [[count|message] st1] eqn:Hf.
    + rewrite (run_completed st products count st1 U G Hf).
      cbn [snd] in Hs. unfold logActivity. cbn [snd requests]. rewrite Hs.
      unfold shopifyAPI_get. cbn [snd requests]. now rewrite <- app_assoc.
    + rewrite (run_scan_failed st products message st1 U G Hf).
      cbn [snd] in Hs. unfold logActivity. cbn [snd requests]. rewrite Hs.
      unfold shopifyAPI_get. cbn [snd requests]. now rewrite <- app_assoc.
  - exists []. rewrite (run_fetch_failed st message U G). reflexivity.
Qed.

Lemma run_returns (st : State) : fst (run r env st) = Returned tt.
Proof.
  destruct (unconfigured env) eqn:U.
  - now rewrite run_unconfigured.
  - destruct (remote_get env (requests st)) as [products|message] eqn:G.
    + destruct (for_of products (loop_body r env) 0 (snd (shopifyAPI_get env st)))
        as [[count|message] st1] eqn:Hf.
      * now rewrite (run_completed st products count st1 U G Hf).
      * now rewrite (run_scan_failed st products message st1 U G Hf).
    + now rewrite (run_fetch_failed st message U G).
Qed.

End RunEnds.

(** X5: no failure of the catalogue escapes. Whatever the catalogue
    answers and whatever the configuration, each routine and each scheduled
    run returns normally and the product listing returns a response; the
    bulk edit returns a response whenever [productIds] is falsy or an array.
    What does escape is the error of the bulk edit's own loop header: on a
    truthy [productIds] that cannot be iterated the handler throws, before
    any request and any log entry, and sends no response. *)
Theorem no_failure_escapes (env : Env) (st : State) :
  (forall r, fst (run r env st) = Returned tt)
  /\ (forall r, fst (scheduled r env st) = Returned tt)
  /\ (exists response, fst (get_api_products env st) = Returned response)
  /\ (forall ids updates,
        exists response,
          fst (bulk_edit_handler env (IdArray ids) updates st) = Returned response)
  /\ (forall updates,
        bulk_edit_handler env Falsy updates st
        = (Returned (mkResponse 200 (BulkEditBody [] 0 0)), st))
  /\ (forall type_error updates,
        bulk_edit_handler env (NotIterable type_error) updates st
        = (Thrown type_error, st)).
Proof.
  split; [intros r; apply run_returns|]. split; [|split; [|split; [|split]]].
  - intros r.
    assert (H : forall action details st0,
              fst ((logActivity env action details success ;; run r env) st0)
              = Returned tt).
    { intros a d st0. unfold bind, logActivity. apply run_returns. }
    destruct r; apply H.
  - unfold get_api_products, try_catch.
    match goal with
    | |- context [match ?b with _ => _ end] =>
        destruct b as [[response|message] st1]
    end; eexists; reflexivity.
  - intros ids updates.
    destruct (bulk_edit_loop env updates ids [] st) as (st' & Hl & _).
    eexists. cbn [bulk_edit_handler]. unfold post_api_bulk_edit, bind.
    rewrite Hl. reflexivity.
  - reflexivity.
  - reflexivity.
Qed.

(** X6: when the fetch fails, a configured routine sends nothing more: its
    only request is the fetch, no product is written back, and one error
    entry, under the routine's action and with the message of the failure,
    goes to the front of the log. *)
Theorem fetch_failure_ends_routine (r : Routine) (env : Env) (st : State)
    (message : jsstr) :
  unconfigured env = false ->
  remote_get env (requests st) = Thrown message ->
  fst (run r env st) = Returned tt
  /\ requests (snd (run r env st)) = requests st ++ [GetProducts]
  /\ automationLogs (snd (run r env st))
     = unshift_capped
         (mkEntry (now env (clock_reads st)) (error_action r) message error)
         (automationLogs st).
Proof.
  intros U G. rewrite (run_fetch_failed env r st message U G).
  repeat split.
Qed.

Lemma fetch_failure_witness :
  requests (snd (run InventoryTagging Outage.unreachable initial)) = [GetProducts]
  /\ automationLogs (snd (run InventoryTagging Outage.unreachable initial))
     = [mkEntry (Scenario.clock 0) (lit "inventory_tagging")
          Outage.network_error error].
Proof.
  destruct (fetch_failure_ends_routine InventoryTagging Outage.unreachable
              initial Outage.network_error eq_refl eq_refl) as (_ & Hr & Hl).
  split; [exact Hr|exact Hl].
Defined.

(** X7: a configured run closes the log with one entry of its own: either
    the summary, whose count is the number of write-backs the run sent (all
    of those owed to the fetched products), or the routine's error entry. A
    run whose updates are all accepted closes with the summary. *)
Theorem run_closes_log (r : Routine) (env : Env) (st : State) :
  unconfigured env = false ->
  (exists ts,
      (exists products,
          remote_get env (requests st) = Returned products
          /\ requests (snd (run r env st))
             = requests st ++ [GetProducts] ++ owed r products
          /\ hd_error (automationLogs (snd (run r env st)))
             = Some (mkEntry ts (summary_action r)
                       (summary_details r (List.length (owed r products)))
                       success))
      \/ (exists message,
             hd_error (automationLogs (snd (run r env st)))
             = Some (mkEntry ts (error_action r) message error)))
  /\ (forall products,
        remote_get env (requests st) = Returned products ->
        (forall history id fields, remote_put env history id fields = Returned tt) ->
        exists ts,
          hd_error (automationLogs (snd (run r env st)))
          = Some (mkEntry ts (summary_action r)
                    (summary_details r (List.length (owed r products)))
                    success)).
Proof.
  intros U. split.
  - destruct (remote_get env (requests st)) as [products|message] eqn:G.
    + destruct (for_of products (loop_body r env) 0 (snd (shopifyAPI_get env st)))
        as [[count|message] st1] eqn:Hf.
      * exists (now env (clock_reads st1)). left. exists products.
        rewrite (run_completed env r st products count st1 U G Hf).
        pose proof (for_of_returned_count env r _ _ _ _ _ Hf) as Hc.
        pose proof (for_of_returned env r _ _ _ _ _ Hf) as Hr.
        cbn [Nat.add] in Hc. subst count.
        split; [reflexivity|]. split.
        -- unfold logActivity. cbn [snd requests]. rewrite Hr.
           unfold shopifyAPI_get. cbn [snd requests]. now rewrite <- app_assoc.
        -- apply unshift_capped_head.
      * exists (now env (clock_reads st1)). right. exists message.
        rewrite (run_scan_failed env r st products message st1 U G Hf).
        apply unshift_capped_head.
    + exists (now env (clock_reads st)). right. exists message.
      rewrite (run_fetch_failed env r st message U G).
      apply unshift_capped_head.
  - intros products G H.
    destruct (for_of_healthy env r products 0 (snd (shopifyAPI_get env st)) H)
      as (count & st1 & Hf & _).
    pose proof (for_of_returned_count env r _ _ _ _ _ Hf) as Hc.
    cbn [Nat.add] in Hc. subst count.
    exists (now env (clock_reads st1)).
    rewrite (run_completed env r st products _ st1 U G Hf).
    apply unshift_capped_head.
Qed.

Lemma run_closes_log_witness :
  exists ts,
    hd_error
      (automationLogs
         (snd (run TitleOptimization
                 (Scenario.healthy [Scenario.mouse; Scenario.keyboard]) initial)))
    = Some (mkEntry ts (lit "title_optimization_complete")
              (lit "Optimized 2 product titles") success).
Proof.
  exact (proj2 (run_closes_log TitleOptimization
                  (Scenario.healthy [Scenario.mouse; Scenario.keyboard])
                  initial eq_refl)
               [Scenario.mouse; Scenario.keyboard] eq_refl
               (fun _ _ _ => eq_refl)).
Defined.

Lemma shopifyConfigured_guard (env : Env) :
  shopifyConfigured env = negb (unconfigured env).
Proof.
  unfold shopifyConfigured, unconfigured.
  destruct (falsy (SHOPIFY_STORE env)) eqn:E; cbn [orb].
  - now rewrite E.
  - reflexivity.
Qed.

(** X8: the flag of the health check is the guard of the routines.
    [shopifyConfigured] is true exactly when both secrets are set and
    non-empty (a secret set to the empty string counts as missing). When it
    is false a routine changes nothing; when it is true a routine always
    sends the fetch, so a routine leaves the state as it was exactly when
    the flag is false. The health check itself sends no request and logs
    nothing. *)
Theorem health_flag_is_the_guard (env : Env) :
  shopifyConfigured env = negb (unconfigured env)
  /\ (shopifyConfigured env = true <->
      exists store token,
        SHOPIFY_STORE env = Some store /\ store <> []
        /\ SHOPIFY_ACCESS_TOKEN env = Some token /\ token <> [])
  /\ (forall r st,
        shopifyConfigured env = false <-> run r env st = (Returned tt, st))
  /\ (forall r st,
        shopifyConfigured env = true ->
        exists sent,
          requests (snd (run r env st)) = requests st ++ GetProducts :: sent)
  /\ (forall st,
        fst (get_health env st)
        = Returned (200%N,
                    mkHealth (lit "healthy") (now env (clock_reads st))
                             (shopifyConfigured env))
        /\ requests (snd (get_health env st)) = requests st
        /\ automationLogs (snd (get_health env st)) = automationLogs st).
Proof.
  pose proof (shopifyConfigured_guard env) as Hg.
  split; [exact Hg|]. split; [|split; [|split]].
  - unfold shopifyConfigured.
    destruct (SHOPIFY_STORE env) as [[|c store]|];
      destruct (SHOPIFY_ACCESS_TOKEN env) as [[|d token]|]; cbn; split;
      try discriminate;
      try (intros (s & t & H1 & H2 & H3 & H4); congruence).
    intros _. eexists _, _. repeat split; discriminate.
  - intros r st. split.
    + intros H. apply run_unconfigured. rewrite Hg in H.
      now apply negb_false_iff in H.
    + intros H. destruct (unconfigured env) eqn:U.
      * rewrite Hg. reflexivity.
      * destruct (run_extends env r st U) as (sent & Hs).
        rewrite H in Hs. cbn [snd] in Hs.
        apply (f_equal (@List.length Request)) in Hs.
        rewrite length_app in Hs. cbn [List.length] in Hs. lia.
  - intros r st H. apply run_extends. rewrite Hg in H.
    now apply negb_true_iff in H.
  - intros st. repeat split.
Qed.

(* ================================================================= *)
(** * The log of a bulk edit *)

Section BulkEditLog.

Variable env : Env.
Variable updates : option jsstr.

(** One id leaves one entry, with the status of its result. *)
Lemma bulk_edit_body_log (results : list BulkEditResult) (id : N) (st : State) :
  exists entry,
    automationLogs (snd (bulk_edit_body env updates results id st))
    = unshift_capped entry (automationLogs st)
    /\ action entry = lit "bulk_update"
    /\ [status entry]
       = map result_status (expected_results env updates (requests st) [id]).
Proof.
  unfold bulk_edit_body, try_catch, bind, shopifyAPI_put. cbn [expected_results].
  destruct (remote_put env (requests st) id (Updates updates)) as [[]|message];
    eexists; repeat split.
Qed.

Lemma bulk_edit_loop_log (ids : list N) (results : list BulkEditResult)
    (st : State) :
  within_capacity st ->
  exists entries,
    automationLogs (snd (for_of ids (bulk_edit_body env updates) results st))
    = firstn 100 (rev entries ++ automationLogs st)
    /\ Forall (fun entry => action entry = lit "bulk_update") entries
    /\ map status entries
       = map result_status (expected_results env updates (requests st) ids).
Proof.
  revert results st. induction ids as [|id ids IH]; intros results st H.
  - exists []. repeat split; [|constructor].
    cbn [for_of ret snd rev app]. symmetry. now apply firstn_all2.
  - destruct (bulk_edit_body_eq env updates results id st) as (st1 & Hb & Hr1).
    destruct (bulk_edit_body_log results id st) as (entry & He & Ha & Hs).
    rewrite Hb in He. cbn [snd] in He.
    assert (H1 : within_capacity st1).
    { unfold within_capacity. rewrite He. now apply unshift_capped_within. }
    destruct (IH (results ++ expected_results env updates (requests st) [id])
                 st1 H1) as (entries & Hl & Hact & Hst).
    exists (entry :: entries). split; [|split].
    + cbn [for_of]. unfold bind. rewrite Hb, Hl, He.
      rewrite unshift_capped_firstn by exact H.
      rewrite firstn_app_firstn. cbn [rev]. now rewrite <- app_assoc.
    + now constructor.
    + cbn [map]. rewrite Hst, Hr1.
      cbn [expected_results map] in Hs |- *. injection Hs as Hs.
      now rewrite Hs.
Qed.

End BulkEditLog.

(** X10: a bulk edit leaves one log entry per id. On a log within its
    capacity, the log after the request is the 100 newest of the new entries
    and the old ones, newest first; the new entries all carry the action
    [bulk_update], and their statuses, in order, are the statuses of the
    results. *)
Theorem bulk_edit_logs_each_id (env : Env) (ids : list N)
    (updates : option jsstr) (st : State) :
  within_capacity st ->
  exists entries,
    automationLogs (snd (post_api_bulk_edit env (Some ids) updates st))
    = firstn 100 (rev entries ++ automationLogs st)
    /\ List.length entries = List.length ids
    /\ Forall (fun entry => action entry = lit "bulk_update") entries
    /\ map status entries
       = map result_status (expected_results env updates (requests st) ids).
Proof.
  intros H.
  destruct (bulk_edit_loop_log env updates ids [] st H)
    as (entries & Hl & Ha & Hs).
  exists entries. split; [|split; [|split]]; try assumption.
  - unfold post_api_bulk_edit, bind.
    destruct (for_of ids (bulk_edit_body env updates) [] st) as [[results|m] st'];
      exact Hl.
  - rewrite <- (length_map status), Hs, length_map.
    rewrite <- (length_map result_id), expected_results_ids. reflexivity.
Qed.

Lemma bulk_edit_log_of_three :
  map status
      (automationLogs
         (snd (post_api_bulk_edit Scenario.second_fails
                 (Some [101; 102; 103]%N) None initial)))
  = [success; error; success].
Proof.
  destruct (bulk_edit_logs_each_id Scenario.second_fails [101; 102; 103]%N
              None initial) as (entries & Hl & Hn & _ & Hs).
  - unfold within_capacity. cbn. lia.
  - rewrite Hl. change (automationLogs initial) with (@nil ActivityLogEntry).
    rewrite app_nil_r, firstn_all2 by (rewrite length_rev, Hn; cbn; lia).
    rewrite map_rev, Hs. reflexivity.
Defined.

(* ================================================================= *)
(** * The scheduler without configuration *)

(** X11: on a server with a secret missing or empty, a scheduled run does
    one thing: it puts its [scheduled_task] entry at the front of the log.
    No request is sent and the routine adds no entry of its own, so such a
    server fills its log with these entries alone. *)
Theorem scheduled_run_without_configuration (r : Routine) (env : Env) (st : State) :
  unconfigured env = true ->
  fst (scheduled r env st) = Returned tt
  /\ requests (snd (scheduled r env st)) = requests st
  /\ exists details,
       automationLogs (snd (scheduled r env st))
       = unshift_capped
           (mkEntry (now env (clock_reads st)) (lit "scheduled_task") details
                    success)
           (automationLogs st).
Proof.
  intros U.
  assert (H : forall details,
            (logActivity env (lit "scheduled_task") details success ;; run r env) st
            = logActivity env (lit "scheduled_task") details success st).
  { intros d. unfold bind. cbn [logActivity].
    now rewrite (run_unconfigured env r _ U). }
  assert (E : exists details,
            scheduled r env st
            = logActivity env (lit "scheduled_task") details success st).
  { destruct r; eexists; exact (H _). }
  destruct E as (details & E). rewrite E.
  split; [reflexivity|split; [reflexivity|exists details; reflexivity]].
Qed.

Lemma scheduled_run_witness :
  requests (snd (scheduled SeoGeneration Outage.empty_token initial)) = []
  /\ map action
         (automationLogs (snd (scheduled SeoGeneration Outage.empty_token initial)))
     = [lit "scheduled_task"].
Proof.
  destruct (scheduled_run_without_configuration SeoGeneration Outage.empty_token
              initial eq_refl) as (_ & Hr & details & Hl).
  split; [exact Hr|]. rewrite Hl. reflexivity.
Defined.
